(** * helpers.py: a shallow embedding and its verified properties

    The module under study is [src/helpers.py]: the attribute-style
    dictionary [Storage], the thread-local dictionary [ThreadedDict] and
    its global instance [ctx], the HTML escaping functions [htmlquote] and
    [websafe], the coercion [safestr], the response-header helper [header]
    and the call cache [Memoize].

    Python text ([str]) is a sequence of Unicode code points and is
    modelled as [list N]; byte strings ([bytes]) are lists of [byte].
    Exceptions are values of the type [exn]; a function that can raise
    returns a [result], next to the state it leaves where it has one. *)

From Stdlib Require Import NArith ZArith Ascii String List Bool Lia.
From Stdlib Require Import DecimalString Strings.Byte.
From stdpp Require Import base option list gmap strings.
Import ListNotations.

Set Warnings "-register-all".
Local Open Scope N_scope.

(** ** Text *)

(** A Python string literal of ASCII characters. *)
Definition txt (s : string) : list N :=
  map N_of_ascii (list_ascii_of_string s).

(** [s.startswith(p)] *)
Fixpoint is_prefix (p s : list N) : bool :=
  match p, s with
  | [], _ => true
  | a :: p', b :: s' => (a =? b) && is_prefix p' s'
  | _ :: _, [] => false
  end.

(** The scan of [str.replace] for a non-empty pattern: left to right,
    occurrences do not overlap.  [skip] counts the characters of an
    occurrence just replaced that are still to be passed over. *)
Fixpoint replace_from (old new : list N) (skip : nat) (s : list N) : list N :=
  match s with
  | [] => []
  | c :: s' =>
      match skip with
      | S k => replace_from old new k s'
      | O =>
          if is_prefix old s
          then new ++ replace_from old new (length old - 1) s'
          else c :: replace_from old new 0 s'
      end
  end.

(** [s.replace(old, new)]; an empty pattern matches before every character
    and at the end. *)
Definition str_replace (old new s : list N) : list N :=
  match old with
  | [] => new ++ flat_map (fun c => c :: new) s
  | _ :: _ => replace_from old new 0 s
  end.

(** [sub in s] for two strings. *)
Fixpoint str_contains (sub s : list N) : bool :=
  is_prefix sub s ||
  match s with
  | [] => false
  | _ :: s' => str_contains sub s'
  end.

(** ** HTML escaping *)

Definition htmlquote (text : list N) : list N :=
  let text := str_replace (txt "&") (txt "&amp;") text in
  let text := str_replace (txt "<") (txt "&lt;") text in
  let text := str_replace (txt ">") (txt "&gt;") text in
  let text := str_replace (txt "'") (txt "&#39;") text in
  let text := str_replace [34] (txt "&quot;") text in
  text.

(** What [htmlquote] does to one character of its input. *)
Definition escape_char (c : N) : list N :=
  if c =? 38 then txt "&amp;"
  else if c =? 60 then txt "&lt;"
  else if c =? 62 then txt "&gt;"
  else if c =? 39 then txt "&#39;"
  else if c =? 34 then txt "&quot;"
  else [c].

Definition html_sensitive (c : N) : bool :=
  (c =? 38) || (c =? 60) || (c =? 62) || (c =? 39) || (c =? 34).


(** ** Exceptions and results *)

Inductive exn : Type :=
| ValueError (msg : string)
| AttributeError (name : string)
| KeyError (key : string)
| NameError (name : string)
| UnicodeDecodeError
| TypeError (msg : string).

Inductive result (A : Type) : Type :=
| Return (a : A)
| Raise (e : exn).

Arguments Return {A} a.
Arguments Raise {A} e.

(** ** Python values

    The values the helpers are applied to.  [VIter truthy rendering items]
    is an object with a [__next__] method that yields [items] and then
    stops; [truthy] is its truth value ([True] for generators and the
    built-in iterators, which define neither [__bool__] nor [__len__]) and
    [rendering] is what [str] returns for it.  On all these values [str]
    returns; the bound that recent interpreters put on the number of digits
    of an integer they convert is not modelled. *)

Inductive value : Type :=
| VNone
| VBool (b : bool)
| VInt (z : Z)
| VStr (s : list N)
| VBytes (b : list byte)
| VIter (truthy : bool) (rendering : list N) (items : list value).

(** [bool(obj)] *)
Definition truth (obj : value) : bool :=
  match obj with
  | VNone => false
  | VBool b => b
  | VInt z => negb (z =? 0)%Z
  | VStr s => negb (Nat.eqb (length s) 0)
  | VBytes b => negb (Nat.eqb (length b) 0)
  | VIter t _ _ => t
  end.

(** [hasattr(obj, "__next__")] *)
Definition has_next (obj : value) : bool :=
  match obj with
  | VIter _ _ _ => true
  | _ => false
  end.

(** [obj is True] *)
Definition is_True (obj : value) : bool :=
  match obj with
  | VBool true => true
  | _ => false
  end.

(** *** [str] of the built-in values *)

Definition hex_digit (n : N) : N :=
  if n <? 10 then 48 + n else 87 + n.

(** The quote [repr] chooses for a byte string: a double quote only when
    the bytes hold a single quote and no double quote. *)
Definition bytes_quote (b : list N) : N :=
  if existsb (N.eqb 39) b && negb (existsb (N.eqb 34) b) then 34 else 39.

Definition bytes_repr_char (quote c : N) : list N :=
  if (c =? quote) || (c =? 92) then [92; c]
  else if c =? 9 then txt "\t"
  else if c =? 10 then txt "\n"
  else if c =? 13 then txt "\r"
  else if (c <? 32) || (127 <=? c) then [92; 120; hex_digit (c / 16); hex_digit (c mod 16)]
  else [c].

(** [repr(b)] for a byte string, which is also [str(b)]. *)
Definition bytes_repr (b : list byte) : list N :=
  let b := map Byte.to_N b in
  let quote := bytes_quote b in
  [98; quote] ++ flat_map (bytes_repr_char quote) b ++ [quote].

Definition int_str (z : Z) : list N :=
  txt (NilZero.string_of_int (Z.to_int z)).

(** [str(obj)] *)
Definition py_str (obj : value) : list N :=
  match obj with
  | VNone => txt "None"
  | VBool true => txt "True"
  | VBool false => txt "False"
  | VInt z => int_str z
  | VStr s => s
  | VBytes b => bytes_repr b
  | VIter _ rendering _ => rendering
  end.

(** *** [bytes.decode("utf-8")]

    The strict decoder: shortest forms only, no surrogates, nothing above
    U+10FFFF.  [None] stands for [UnicodeDecodeError]. *)

Definition is_cont (b : N) : bool := (128 <=? b) && (b <=? 191).

Definition in_range (lo hi b : N) : bool := (lo <=? b) && (b <=? hi).

Fixpoint utf8_decode_N (b : list N) : option (list N) :=
  match b with
  | [] => Some []
  | b0 :: r0 =>
      if b0 <? 128 then cons b0 <$> utf8_decode_N r0
      else if in_range 194 223 b0 then
        match r0 with
        | b1 :: r1 =>
            if is_cont b1
            then cons ((b0 - 192) * 64 + (b1 - 128)) <$> utf8_decode_N r1
            else None
        | _ => None
        end
      else if in_range 224 239 b0 then
        match r0 with
        | b1 :: b2 :: r2 =>
            if in_range (if b0 =? 224 then 160 else 128)
                        (if b0 =? 237 then 159 else 191) b1 && is_cont b2
            then cons ((b0 - 224) * 4096 + (b1 - 128) * 64 + (b2 - 128))
                   <$> utf8_decode_N r2
            else None
        | _ => None
        end
      else if in_range 240 244 b0 then
        match r0 with
        | b1 :: b2 :: b3 :: r3 =>
            if in_range (if b0 =? 240 then 144 else 128)
                        (if b0 =? 244 then 143 else 191) b1
               && is_cont b2 && is_cont b3
            then cons ((b0 - 240) * 262144 + (b1 - 128) * 4096
                       + (b2 - 128) * 64 + (b3 - 128))
                   <$> utf8_decode_N r3
            else None
        | _ => None
        end
      else None
  end.

Definition utf8_decode (b : list byte) : option (list N) :=
  utf8_decode_N (map Byte.to_N b).

(** ** [websafe] *)

Definition websafe (val : value) : result (list N) :=
  match val with
  | VNone => Return (txt "")
  | VBytes b =>
      match utf8_decode b with
      | Some val => Return (htmlquote val)
      | None => Raise UnicodeDecodeError
      end
  | VStr s => Return (htmlquote s)
  | _ => Return (htmlquote (py_str val))
  end.

(** ** [safestr]

    The function returns either text or a list, whose elements are again
    coerced values. *)

Inductive coerced : Type :=
| CText (s : list N)
| CList (l : list coerced).

Fixpoint safestr (obj : value) : coerced :=
  if truth obj && has_next obj
  then CList (match obj with
              | VIter _ _ items => map safestr items
              | _ => []
              end)
  else CText (py_str obj).

Definition safeunicode := safestr.

(** ** [header]

    [ctx.headers], as the calling thread sees it, is documented as a list
    of 2-tuples; [None] stands for a context on which the attribute has not
    been set.  The entries [header] itself appends are pairs of coerced
    values. *)

(** [needle in c]: substring search in text, element search in a list. *)
Definition contains (needle : list N) (c : coerced) : bool :=
  match c with
  | CText s => str_contains needle s
  | CList l =>
      existsb (fun e => match e with
                        | CText s => bool_decide (s = needle)
                        | CList _ => false
                        end) l
  end.

Definition has_line_break (c : coerced) : bool :=
  contains [10] c || contains [13] c.

Section Header.

(** [str.lower], the case mapping of the Python runtime. *)
Variable lower : list N -> list N.

(** [c.lower()]: a list has no such method. *)
Definition coerced_lower (c : coerced) : result (list N) :=
  match c with
  | CText s => Return (lower s)
  | CList _ => Raise (AttributeError "lower")
  end.

(** The loop [for h, v in ctx.headers: if h.lower() == hdr.lower(): return];
    [Return true] when the loop returned from [header]. *)
Fixpoint scan_headers (hdr : coerced) (hs : list (coerced * coerced))
  : result bool :=
  match hs with
  | [] => Return false
  | (h, v) :: hs' =>
      match coerced_lower h with
      | Raise e => Raise e
      | Return lh =>
          match coerced_lower hdr with
          | Raise e => Raise e
          | Return lhdr =>
              if bool_decide (lh = lhdr) then Return true
              else scan_headers hdr hs'
          end
      end
  end.

(** [ctx.headers.append((hdr, value))] *)
Definition append_header (hdr value : coerced)
    (headers : option (list (coerced * coerced)))
  : option (list (coerced * coerced)) * result unit :=
  match headers with
  | None => (headers, Raise (AttributeError "headers"))
  | Some hs => (Some (hs ++ [(hdr, value)]), Return tt)
  end.

Definition header (hdr value unique : value)
    (headers : option (list (coerced * coerced)))
  : option (list (coerced * coerced)) * result unit :=
  let hdr := safestr hdr in
  let value := safestr value in
  if contains [10] hdr || contains [13] hdr
     || contains [10] value || contains [13] value
  then (headers, Raise (ValueError "invalid characters in header"))
  else if is_True unique then
    match headers with
    | None => (headers, Raise (AttributeError "headers"))
    | Some hs =>
        match scan_headers hdr hs with
        | Raise e => (headers, Raise e)
        | Return true => (headers, Return tt)
        | Return false => append_header hdr value headers
        end
    end
  else append_header hdr value headers.

End Header.

(** ASCII lower-casing, the restriction of [str.lower] to header names
    made of ASCII characters. *)
Definition ascii_lower (s : list N) : list N :=
  map (fun c => if in_range 65 90 c then c + 32 else c) s.

(** How many entries of a header list carry a given name, compared the way
    [header] compares names. *)
Definition same_name (lower : list N -> list N) (name : list N)
    (p : coerced * coerced) : bool :=
  match fst p with
  | CText h => bool_decide (lower h = lower name)
  | CList _ => false
  end.

Definition count_name (lower : list N -> list N) (name : list N)
    (hs : list (coerced * coerced)) : nat :=
  length (List.filter (same_name lower name) hs).

Definition text_named (p : coerced * coerced) : Prop :=
  match fst p with
  | CText _ => True
  | CList _ => False
  end.

(** ** Python dictionaries

    A [dict] with text keys keeps its entries in insertion order: an
    association list without repeated keys.  Assigning to a key that is
    present keeps its position. *)

Module PyDict.
Section Dict.

Context {V : Type}.

Fixpoint find (k : string) (d : list (string * V)) : option V :=
  match d with
  | [] => None
  | (k', v) :: d' => if String.eqb k k' then Some v else find k d'
  end.

Fixpoint put (k : string) (v : V) (d : list (string * V)) : list (string * V) :=
  match d with
  | [] => [(k, v)]
  | (k', v') :: d' =>
      if String.eqb k k' then (k', v) :: d' else (k', v') :: put k v d'
  end.

Fixpoint drop_key (k : string) (d : list (string * V)) : list (string * V) :=
  match d with
  | [] => []
  | (k', v') :: d' =>
      if String.eqb k k' then d' else (k', v') :: drop_key k d'
  end.

(** [d[k]] *)
Definition getitem (k : string) (d : list (string * V)) : result V :=
  match find k d with
  | Some v => Return v
  | None => Raise (KeyError k)
  end.

(** [d[k] = v] *)
Definition setitem (k : string) (v : V) (d : list (string * V))
  : list (string * V) :=
  put k v d.

(** [del d[k]] *)
Definition delitem (k : string) (d : list (string * V))
  : list (string * V) * result unit :=
  match find k d with
  | Some _ => (drop_key k d, Return tt)
  | None => (d, Raise (KeyError k))
  end.

(** [d.update(other)] for a sequence of pairs *)
Definition update_from (other d : list (string * V)) : list (string * V) :=
  fold_left (fun acc kv => put (fst kv) (snd kv) acc) other d.

End Dict.
End PyDict.

(** ** [Storage] *)

Module Storage.
Section Storage.

Context {V : Type}.

Definition __getattr__ (key : string) (self : list (string * V)) : result V :=
  match PyDict.getitem key self with
  | Return v => Return v
  | Raise (KeyError k) => Raise (AttributeError k)
  | Raise e => Raise e
  end.

Definition __setattr__ (key : string) (value : V) (self : list (string * V))
  : list (string * V) :=
  PyDict.setitem key value self.

Definition __delattr__ (key : string) (self : list (string * V))
  : list (string * V) * result unit :=
  match PyDict.delitem key self with
  | (self', Raise (KeyError k)) => (self', Raise (AttributeError k))
  | r => r
  end.

(** What the expression [o.key] evaluates to.  Python calls
    [__getattr__] only for a name that the ordinary lookup does not
    find; a name defined by the class or one of its bases (for [Storage],
    the attributes of [dict]) is found there and yields that attribute.
    [class_attrs] lists those names.  [o.key = v] and [del o.key] always
    go through [__setattr__] and [__delattr__]. *)
Inductive attribute : Type :=
| FromMap (v : V)
| FromClass (name : string).

Definition member_read (class_attrs : list string) (key : string)
    (self : list (string * V)) : result attribute :=
  if existsb (String.eqb key) class_attrs then Return (FromClass key)
  else match __getattr__ key self with
       | Return v => Return (FromMap v)
       | Raise e => Raise e
       end.

Definition member_write := __setattr__.
Definition member_delete := __delattr__.

End Storage.

(** The methods of [dict], which every [Storage] inherits. *)
Definition dict_methods : list string :=
  ["clear"; "copy"; "fromkeys"; "get"; "items"; "keys"; "pop"; "popitem";
   "setdefault"; "update"; "values"]%string.

End Storage.

(** ** [ThreadedDict]

    [threading.local] gives every thread its own attribute dictionary
    [self.__dict__] behind one shared object.  The state of the process is
    therefore a map from (instance, thread) to a dictionary, together with
    the class attribute [_instances]; a thread that has not yet stored
    anything sees the empty dictionary.  The values stored are data (the
    text, numbers, lists and dictionaries of a request), none of which can
    be called. *)

Module ThreadedDict.
Section ThreadedDict.

Context {V : Type}.

(** Python's [None] among the stored values. *)
Variable none : V.

Record state : Type := {
  _instances : gset nat;
  locals : gmap (nat * nat) (list (string * V))
}.

(** [self.__dict__] of instance [self] in thread [tid] *)
Definition __dict__ (self tid : nat) (st : state) : list (string * V) :=
  default [] (locals st !! (self, tid)).

(** What a method hands back. *)
Inductive ret : Type :=
| RNone
| RValue (v : V)
| RBool (b : bool)
| RDict (d : list (string * V))
| RItems (l : list (string * V))
| RKeys (l : list string)
| RValues (l : list V)
| RItem (k : string) (v : V).

(** The methods that work on [self.__dict__], with their arguments; an
    optional argument is [None] when it is not passed. *)
Inductive method : Type :=
| Getitem (key : string)
| Setitem (key : string) (value : V)
| Delitem (key : string)
| Contains (key : string)
| Clear
| Copy
| Get (key : string) (default : option V)
| Items
| Iteritems
| Keys
| Iterkeys
| Values
| Itervalues
| Pop (key : string) (args : option V)
| Popitem
| Setdefault (key : string) (default : option V)
| Update (other kwargs : list (string * V))
| Has_key (key : string)
| Iter.

(** The body of each method, as a function of [self.__dict__]. *)
Definition body (m : method) (d : list (string * V))
  : list (string * V) * result ret :=
  match m with
  | Getitem key =>
      match PyDict.getitem key d with
      | Return v => (d, Return (RValue v))
      | Raise e => (d, Raise e)
      end
  | Setitem key value => (PyDict.setitem key value d, Return RNone)
  | Delitem key =>
      match PyDict.delitem key d with
      | (d', Return _) => (d', Return RNone)
      | (d', Raise e) => (d', Raise e)
      end
  | Contains key => (d, Return (RBool (bool_decide (is_Some (PyDict.find key d)))))
  | Clear => ([], Return RNone)
  | Copy => (d, Return (RDict d))
  | Get key default =>
      match PyDict.find key d with
      | Some v => (d, Return (RValue v))
      | None => (d, Return (RValue (match default with Some v => v | None => none end)))
      end
  | Items => (d, Return (RItems d))
  | Iteritems => (d, Raise (NameError "iteritems"))
  | Keys => (d, Return (RKeys (map fst d)))
  | Iterkeys => (d, Return (RKeys (map fst d)))
  | Values => (d, Return (RValues (map snd d)))
  | Itervalues => (d, Raise (NameError "itervalues"))
  | Pop key args =>
      match PyDict.find key d, args with
      | Some v, _ => (PyDict.drop_key key d, Return (RValue v))
      | None, Some v => (d, Return (RValue v))
      | None, None => (d, Raise (KeyError key))
      end
  | Popitem =>
      match rev d with
      | (k, v) :: r => (rev r, Return (RItem k v))
      | [] => (d, Raise (KeyError "popitem(): dictionary is empty"))
      end
  | Setdefault key default =>
      match PyDict.find key d with
      | Some v => (d, Return (RValue v))
      | None =>
          let v := match default with Some v => v | None => none end in
          (PyDict.setitem key v d, Return (RValue v))
      end
  | Update other kwargs =>
      (PyDict.update_from kwargs (PyDict.update_from other d), Return RNone)
  | Has_key key =>
      (d, Return (RBool (bool_decide (is_Some (PyDict.find key d)))))
  | Iter => (d, Return (RKeys (map fst d)))
  end.

(** The name under which [d.m(...)] looks the method up on the instance.
    The operations written [d[k]], [d[k] = v], [del d[k]] and [k in d]
    have none: Python finds their methods on the class. *)
Definition method_name (m : method) : option string :=
  match m with
  | Getitem _ | Setitem _ _ | Delitem _ | Contains _ => None
  | Clear => Some "clear"
  | Copy => Some "copy"
  | Get _ _ => Some "get"
  | Items => Some "items"
  | Iteritems => Some "iteritems"
  | Keys => Some "keys"
  | Iterkeys => Some "iterkeys"
  | Values => Some "values"
  | Itervalues => Some "itervalues"
  | Pop _ _ => Some "pop"
  | Popitem => Some "popitem"
  | Setdefault _ _ => Some "setdefault"
  | Update _ _ => Some "update"
  | Has_key _ => Some "has_key"
  | Iter => Some "iter"
  end.

(** What the call of a method does to [self.__dict__].  The entries of
    that dictionary are the attributes of the instance in the calling
    thread, so an entry with the name of a method hides the method:
    [d.m(...)] then applies the stored value, and the stored values are
    data, which cannot be called. *)
Definition call (m : method) (d : list (string * V))
  : list (string * V) * result ret :=
  match method_name m with
  | Some name =>
      match PyDict.find name d with
      | Some _ => (d, Raise (TypeError "object is not callable"))
      | None => body m d
      end
  | None => body m d
  end.

(** Thread [tid] calls method [m] on instance [self]. *)
Definition invoke (self tid : nat) (m : method) (st : state)
  : state * result ret :=
  let (d, r) := call m (__dict__ self tid st) in
  ({| _instances := _instances st;
      locals := <[(self, tid) := d]> (locals st) |}, r).

(** [ThreadedDict()] run for instance [self] *)
Definition __init__ (self : nat) (st : state) : state :=
  {| _instances := {[self]} ∪ _instances st; locals := locals st |}.

(** [t.clear()] *)
Definition clear (self tid : nat) (st : state) : state * result ret :=
  invoke self tid Clear st.

(** The loop [for t in list(ThreadedDict._instances): t.clear()]; an
    exception raised by a [t.clear()] ends it. *)
Fixpoint clear_each (l : list nat) (tid : nat) (st : state)
  : state * result ret :=
  match l with
  | [] => (st, Return RNone)
  | t :: l' =>
      match clear t tid st with
      | (st', Return _) => clear_each l' tid st'
      | (st', Raise e) => (st', Raise e)
      end
  end.

(** [ThreadedDict.clear_all()] called by thread [tid] *)
Definition clear_all (tid : nat) (st : state) : state * result ret :=
  clear_each (elements (_instances st)) tid st.

(** One step of a thread. *)
Inductive action : Type :=
| Invoke (self : nat) (m : method)
| ClearAll
| Init (self : nat).

Definition step (tid : nat) (a : action) (st : state) : state * result ret :=
  match a with
  | Invoke self m => invoke self tid m st
  | ClearAll => clear_all tid st
  | Init self => (__init__ self st, Return RNone)
  end.

(** A schedule: which thread does what, in the order it happens. *)
Fixpoint run (sched : list (nat * action)) (st : state) : state :=
  match sched with
  | [] => st
  | (tid, a) :: rest => run rest (fst (step tid a st))
  end.

Definition initial : state := {| _instances := ∅; locals := ∅ |}.

End ThreadedDict.
End ThreadedDict.

(** ** [Memoize]

    The wrapped callable acts on the world outside the cache (a call
    counter, say): given the key built from its arguments it changes the
    world and returns a value or raises.  [time.time()] reads the clock of
    the world.  Calls are executed one after the other; a background
    refresh started by a call is recorded in [spawned] and runs when the
    schedule says so, which may be before the call that started it has
    read the cache for its return value. *)

Module Memoize.
Section Memoize.

Context {Key : Type} `{Countable Key}.
Context {World Value Error : Type}.

(** the wrapped callable [self.func], applied to the arguments of the key *)
Variable func : Key -> World -> World * (Value + Error).

(** [time.time()] *)
Variable time : World -> Z.

Record memo : Type := {
  cache : gmap Key (Value * Z);
  expires : option Z;
  background : bool;
  (** the per-key locks; [true] when the lock is held *)
  running : gmap Key bool;
  (** threads started for a background refresh and not yet run *)
  spawned : list Key
}.

Definition __init__ (expires : option Z) (background : bool) : memo :=
  {| cache := ∅; expires := expires; background := background;
     running := ∅; spawned := [] |}.

Definition set_cache (c : gmap Key (Value * Z)) (self : memo) : memo :=
  {| cache := c; expires := expires self; background := background self;
     running := running self; spawned := spawned self |}.

Definition set_running (r : gmap Key bool) (self : memo) : memo :=
  {| cache := cache self; expires := expires self;
     background := background self; running := r; spawned := spawned self |}.

Definition set_spawned (l : list Key) (self : memo) : memo :=
  {| cache := cache self; expires := expires self;
     background := background self; running := running self; spawned := l |}.

Inductive outcome : Type :=
| Returned (v : Value)
| Raised (e : Error)
(** [acquire(True)] on a lock nobody will release *)
| Blocked
(** a lookup of [self.running[key]] or [self.cache[key]] that fails *)
| Missing
(** the call has started a thread and goes on to
    [return self.cache[key][0]]: it returns what the cache holds when the
    caller runs again, which may be before or after the thread has run *)
| ReadsCache.

(** What [update] did. *)
Inductive updated : Type :=
| Stored
| Skipped
| Failed (o : outcome).

(** [with self.running_lock: if not self.running.get(key): ...] *)
Definition ensure_lock (key : Key) (self : memo) : memo :=
  match running self !! key with
  | Some _ => self
  | None => set_running (<[key := false]> (running self)) self
  end.

(** The inner function [update(block)] *)
Definition update (block : bool) (key : Key) (self : memo) (w : World)
  : memo * World * updated :=
  match running self !! key with
  | None => (self, w, Failed Missing)
  | Some true =>
      if block then (self, w, Failed Blocked) else (self, w, Skipped)
  | Some false =>
      (* acquired; the [finally] clause releases the lock again *)
      match func key w with
      | (w', inl v) =>
          (set_cache (<[key := (v, time w')]> (cache self)) self, w', Stored)
      | (w', inr e) => (self, w', Failed (Raised e))
      end
  end.

(** [return self.cache[key][0]] *)
Definition cached (key : Key) (self : memo) : outcome :=
  match cache self !! key with
  | Some (v, _) => Returned v
  | None => Missing
  end.

Definition after_update (key : Key) (r : memo * World * updated)
  : memo * World * outcome :=
  match r with
  | (self, w, Failed o) => (self, w, o)
  | (self, w, _) => (self, w, cached key self)
  end.

(** [self.expires and (time.time() - self.cache[key][1]) > self.expires] *)
Definition stale (key : Key) (self : memo) (w : World) : bool :=
  match expires self, cache self !! key with
  | Some e, Some (_, t) => negb (e =? 0)%Z && (e <? time w - t)%Z
  | _, _ => false
  end.

Definition __call__ (key : Key) (self : memo) (w : World)
  : memo * World * outcome :=
  let self := ensure_lock key self in
  if negb (bool_decide (is_Some (cache self !! key))) then
    after_update key (update true key self w)
  else if stale key self w then
    if background self then
      (set_spawned (spawned self ++ [key]) self, w, ReadsCache)
    else after_update key (update false key self w)
  else (self, w, cached key self).

(** What happens around the cache: a call, the run of a thread that a
    call has started ([threading.Thread(target=update).start()]), or any
    other change of the world (time passing, a direct call of the wrapped
    function). *)
Inductive event : Type :=
| Call (key : Key)
| Background (key : Key)
| Outside (f : World -> World).

Fixpoint remove_first (key : Key) (l : list Key) : list Key :=
  match l with
  | [] => []
  | k :: l' => if bool_decide (k = key) then l' else k :: remove_first key l'
  end.

Definition occur (ev : event) (self : memo) (w : World) : memo * World :=
  match ev with
  | Call key => fst (__call__ key self w)
  | Background key =>
      if bool_decide (key ∈ spawned self) then
        fst (update false key
               (set_spawned (remove_first key (spawned self)) self) w)
      else (self, w)
  | Outside f => (self, f w)
  end.

Fixpoint occur_all (evs : list event) (self : memo) (w : World) : memo * World :=
  match evs with
  | [] => (self, w)
  | ev :: rest =>
      let (self', w') := occur ev self w in occur_all rest self' w'
  end.

(** No lock is held: the state between two calls. *)
Definition locks_free (self : memo) : Prop :=
  forall key, running self !! key ≠ Some true.

(** A cache without expiry at rest: no lock is held and no thread has
    been started. *)
Definition quiet (self : memo) : Prop :=
  expires self = None /\ locks_free self /\ spawned self = [].

(** A cache without expiry in which [key] has its value [v]: no lock is
    held, no thread has been started, the lock of [key] exists. *)
Definition settled (key : Key) (v : Value) (self : memo) : Prop :=
  expires self = None
  /\ locks_free self
  /\ spawned self = []
  /\ (exists t, cache self !! key = Some (v, t))
  /\ running self !! key = Some false.

End Memoize.
End Memoize.

(** The call counter of the documentation: the world is the number of
    calls so far. *)
Definition howmanytimeshaveibeencalled (_ : unit) (calls : nat)
  : nat * (nat + exn) :=
  (S calls, inl (S calls)).

(** A function that fails on its first run and answers afterwards. *)
Definition flaky (_ : unit) (runs : nat) : nat * (nat + exn) :=
  match runs with
  | O => (1%nat, inr (ValueError "not ready"))
  | S _ => (S runs, inl runs)
  end.

(** A function of the time: the world is a clock counting ticks, a run
    takes one tick and returns the tick at which it started. *)
Definition ticking (_ : unit) (now : nat) : nat * (nat + exn) :=
  (S now, inl now).

(** A cache of [ticking] in which the value of the call made at tick 0
    is stored. *)
Definition ticking_memo (expires : option Z) (background locked : bool)
  : Memoize.memo (Key := unit) (Value := nat) :=
  {| Memoize.cache := {[tt := (0%nat, 1%Z)]};
     Memoize.expires := expires;
     Memoize.background := background;
     Memoize.running := {[tt := locked]};
     Memoize.spawned := [] |}.

(** ** Predicates used to state further properties *)

(** The characters that open or close markup and attribute values. *)
Definition markup_char (c : N) : bool :=
  (c =? 60) || (c =? 62) || (c =? 39) || (c =? 34).

(** A line feed or a carriage return occurs somewhere in a coerced value:
    among its characters, or in one of the texts of a list. *)
Fixpoint holds_line_break (c : coerced) : bool :=
  match c with
  | CText s => existsb (fun x => (x =? 10) || (x =? 13)) s
  | CList l => existsb holds_line_break l
  end.

(** A header entry with no line break in its name and in its value, the
    way [header] looks for one. *)
Definition clean_entry (p : coerced * coerced) : bool :=
  negb (has_line_break (fst p)) && negb (has_line_break (snd p)).

(** The key under which [header] compares the name of an entry. *)
Definition name_key (lower : list N -> list N) (p : coerced * coerced)
  : list N :=
  match fst p with
  | CText h => lower h
  | CList _ => []
  end.

(** A header list in which all names are text and no two entries have the
    same name up to case. *)
Definition distinct_names (lower : list N -> list N)
    (hs : list (coerced * coerced)) : Prop :=
  Forall text_named hs /\ List.NoDup (map (name_key lower) hs).

(** The keys of a dictionary are pairwise different. *)
Definition keys_distinct {V : Type} (d : list (string * V)) : Prop :=
  List.NoDup (map fst d).

(** * Properties *)

(** ** Lemmas on replacement *)

Lemma replace_from_char (c : N) (new s : list N) :
  replace_from [c] new 0 s = flat_map (fun x => if x =? c then new else [x]) s.
Proof.
  induction s as [|x s IH]; [reflexivity|].
  cbn [replace_from is_prefix flat_map length].
  rewrite N.eqb_sym, andb_true_r.
  destruct (x =? c); cbn [Nat.sub]; rewrite IH; reflexivity.
Qed.

Lemma str_replace_char (c : N) (new s : list N) :
  str_replace [c] new s = flat_map (fun x => if x =? c then new else [x]) s.
Proof. apply replace_from_char. Qed.

Lemma flat_map_flat_map {A B C} (f : A -> list B) (g : B -> list C) (l : list A) :
  flat_map g (flat_map f l) = flat_map (fun x => flat_map g (f x)) l.
Proof.
  induction l as [|x l IH]; [reflexivity|].
  cbn [flat_map]. rewrite flat_map_app, IH. reflexivity.
Qed.

Lemma htmlquote_chars (t : list N) : htmlquote t = flat_map escape_char t.
Proof.
  unfold htmlquote.
  change (txt "&") with [38]. change (txt "<") with [60].
  change (txt ">") with [62]. change (txt "'") with [39].
  rewrite !str_replace_char, !flat_map_flat_map.
  apply flat_map_ext. intros c. unfold escape_char.
  destruct (N.eqb_spec c 38) as [->|H38]; [reflexivity|].
  destruct (N.eqb_spec c 60) as [->|H60]; [reflexivity|].
  destruct (N.eqb_spec c 62) as [->|H62]; [reflexivity|].
  destruct (N.eqb_spec c 39) as [->|H39]; [reflexivity|].
  cbn [flat_map app].
  apply N.eqb_neq in H60, H62, H39.
  rewrite H60. cbn [flat_map app]. rewrite H62. cbn [flat_map app].
  rewrite H39. cbn [flat_map app]. rewrite !app_nil_r. reflexivity.
Qed.

Lemma htmlquote_plain (t : list N) :
  forallb (fun c => negb (html_sensitive c)) t = true -> htmlquote t = t.
Proof.
  rewrite htmlquote_chars.
  induction t as [|c t IH]; [reflexivity|].
  cbn [forallb flat_map]. intros [Hc Ht]%andb_true_iff.
  rewrite (IH Ht). unfold escape_char.
  unfold html_sensitive in Hc.
  apply negb_true_iff in Hc.
  repeat (apply orb_false_iff in Hc; destruct Hc as [Hc ?]).
  repeat match goal with H : (_ =? _) = false |- _ => rewrite H; clear H end.
  reflexivity.
Qed.

Lemma escape_char_plain (c : N) :
  html_sensitive c = false -> escape_char c = [c].
Proof.
  unfold html_sensitive, escape_char. intros Hc.
  repeat (apply orb_false_iff in Hc; destruct Hc as [Hc ?]).
  repeat match goal with H : (_ =? _) = false |- _ => rewrite H; clear H end.
  reflexivity.
Qed.

(** C1.  [htmlquote] is the five replacements in the order of the table,
    the ampersand first; the documented input, the five characters
    less-than, apostrophe, ampersand, double quote, greater-than, gives
    [&lt;&#39;&amp;&quot;&gt;]; and every character of the input is
    escaped exactly once, so that the ampersand of an entity written by one
    replacement is not escaped again by another. *)
Theorem htmlquote_spec (t : list N) :
  htmlquote t =
    str_replace [34] (txt "&quot;")
      (str_replace [39] (txt "&#39;")
         (str_replace [62] (txt "&gt;")
            (str_replace [60] (txt "&lt;")
               (str_replace [38] (txt "&amp;") t))))
  /\ htmlquote t = flat_map escape_char t
  /\ htmlquote (txt "<'&" ++ [34] ++ txt ">") = txt "&lt;&#39;&amp;&quot;&gt;".
Proof.
  split; [reflexivity|]. split; [apply htmlquote_chars|].
  vm_compute. reflexivity.
Qed.

(** ** [websafe] *)

Lemma websafe_total (val : value) :
  (exists t, websafe val = Return t)
  \/ (exists b, val = VBytes b /\ utf8_decode b = None
                /\ websafe val = Raise UnicodeDecodeError).
Proof.
  destruct val as [|b|z|s|b|t r items]; cbn [websafe]; eauto.
  destruct (utf8_decode b) eqn:E; eauto 6.
Qed.

Lemma escape_char_no_markup (c : N) :
  forallb (fun x => negb (markup_char x)) (escape_char c) = true.
Proof.
  unfold escape_char.
  destruct (N.eqb_spec c 38); [reflexivity|].
  destruct (N.eqb_spec c 60) as [|H60]; [reflexivity|].
  destruct (N.eqb_spec c 62) as [|H62]; [reflexivity|].
  destruct (N.eqb_spec c 39) as [|H39]; [reflexivity|].
  destruct (N.eqb_spec c 34) as [|H34]; [reflexivity|].
  cbn [forallb]. unfold markup_char.
  apply N.eqb_neq in H60, H62, H39, H34. rewrite H60, H62, H39, H34.
  reflexivity.
Qed.

Lemma htmlquote_no_markup (t : list N) (c : N) :
  In c (htmlquote t) -> markup_char c = false.
Proof.
  rewrite htmlquote_chars, in_flat_map. intros (x & _ & Hc).
  pose proof (escape_char_no_markup x) as Hall.
  rewrite forallb_forall in Hall. apply negb_true_iff, Hall, Hc.
Qed.

(** The decimal rendering of an integer is made of digits and a sign. *)
Lemma uint_string_plain (d : Decimal.uint) :
  forallb (fun c => negb (html_sensitive c))
    (txt (NilEmpty.string_of_uint d)) = true.
Proof.
  unfold txt.
  induction d; cbn [NilEmpty.string_of_uint list_ascii_of_string map forallb];
    rewrite ?IHd; reflexivity.
Qed.

Lemma int_str_plain (z : Z) :
  forallb (fun c => negb (html_sensitive c)) (int_str z) = true.
Proof.
  assert (Hu : forall d,
            forallb (fun c => negb (html_sensitive c))
              (txt (NilZero.string_of_uint d)) = true).
  { intros d. destruct d; try exact (uint_string_plain _). reflexivity. }
  unfold int_str. destruct (Z.to_int z) as [d|d]; cbn [NilZero.string_of_int].
  - apply Hu.
  - change (txt (String "-" (NilZero.string_of_uint d)))
      with (45 :: txt (NilZero.string_of_uint d)).
    cbn [forallb]. rewrite Hu. reflexivity.
Qed.

(** C6.  [websafe] gives the empty text for [None]; it decodes a byte
    string as UTF-8, leaves text as it is, renders any other value with
    [str], and escapes the outcome: each of the five characters becomes
    its entity and every other character is kept.  It returns text for
    every value but a byte string that is not valid UTF-8, on which the
    decoding raises, and the text it returns has no less-than sign, no
    greater-than sign, no apostrophe and no double quote.  Text without a
    character that HTML treats specially comes back unchanged, U+203D for
    one, and an integer comes back as its decimal digits; the documented
    input gives [&lt;&#39;&amp;&quot;&gt;]. *)
Theorem websafe_spec (val : value) :
  websafe VNone = Return []
  /\ websafe val =
       match val with
       | VNone => Return []
       | VBytes b =>
           match utf8_decode b with
           | Some s => Return (flat_map escape_char s)
           | None => Raise UnicodeDecodeError
           end
       | VStr s => Return (flat_map escape_char s)
       | other => Return (flat_map escape_char (py_str other))
       end
  /\ ((exists t, websafe val = Return t)
      \/ (exists b, val = VBytes b /\ utf8_decode b = None
                    /\ websafe val = Raise UnicodeDecodeError))
  /\ (forall t, websafe val = Return t ->
        forallb (fun c => negb (markup_char c)) t = true)
  /\ (forall s, val = VStr s ->
        forallb (fun c => negb (html_sensitive c)) s = true ->
        websafe val = Return s)
  /\ (forall z, val = VInt z -> websafe val = Return (int_str z))
  /\ websafe (VStr (txt "<'&" ++ [34] ++ txt ">"))
     = Return (txt "&lt;&#39;&amp;&quot;&gt;")
  /\ websafe (VBytes ["<"; "b"; ">"]%byte) = Return (txt "&lt;b&gt;")
  /\ websafe (VInt (-12)) = Return (txt "-12")
  /\ websafe (VBool true) = Return (txt "True")
  /\ websafe (VIter false (txt "<gen>") []) = Return (txt "&lt;gen&gt;")
  /\ websafe (VStr [8253]) = Return [8253]
  /\ websafe (VBytes [xe2; x80; xbd]%byte) = Return [8253].
Proof.
  split; [reflexivity|].
  split.
  { destruct val as [|b|z|s|b|t r items]; cbn [websafe];
      try destruct (utf8_decode b); rewrite ?htmlquote_chars; reflexivity. }
  split; [apply websafe_total|].
  split.
  { intros t Hw. apply forallb_forall. intros c Hc. apply negb_true_iff.
    destruct val as [|b|z|s|b|tr r items]; cbn [websafe] in Hw;
      try destruct (utf8_decode b); try discriminate;
      injection Hw as <-;
      first [exact (htmlquote_no_markup _ _ Hc) | destruct Hc]. }
  split.
  { intros s -> Hs. cbn [websafe]. rewrite (htmlquote_plain s Hs).
    reflexivity. }
  split.
  { intros z ->. cbn [websafe py_str].
    rewrite (htmlquote_plain _ (int_str_plain z)). reflexivity. }
  repeat split; vm_compute; reflexivity.
Qed.

Lemma websafe_spec_witness :
  websafe (VStr (txt "plain text")) = Return (txt "plain text")
  /\ forallb (fun c => negb (markup_char c))
       (txt "&lt;a href=&quot;x&quot;&gt;") = true.
Proof.
  split.
  - apply (websafe_spec (VStr (txt "plain text"))); reflexivity.
  - apply (proj1 (proj2 (proj2 (proj2
             (websafe_spec (VStr (txt "<a href=" ++ [34] ++ txt "x"
                                  ++ [34] ++ txt ">"))))))).
    reflexivity.
Defined.

(** ** [safestr] *)

Lemma safestr_no_next (obj : value) :
  has_next obj = false -> safestr obj = CText (py_str obj).
Proof.
  destruct obj; cbn [has_next]; intros Hn; try discriminate;
    cbn [safestr has_next]; rewrite andb_false_r; reflexivity.
Qed.

(** C2, as the specification has it, fails on a byte string: the bytes of
    [hi] are valid UTF-8 for the text [hi], and [safestr] returns the text
    [b'hi'], the rendering of the byte string. *)
Lemma safestr_bytes_not_decoded :
  utf8_decode ["h"; "i"]%byte = Some (txt "hi")
  /\ safestr (VBytes ["h"; "i"]%byte) = CText (txt "b'hi'")
  /\ safestr (VBytes ["h"; "i"]%byte) <> CText (txt "hi").
Proof.
  split; [reflexivity|]. split; [reflexivity|]. vm_compute. discriminate.
Qed.

(** C2, amended.  For an object that has [__next__] and is true,
    [safestr] returns the list of its elements, each coerced in turn and in
    order; for any other value it returns [str] of the value, which for a
    byte string is its literal form [b'...'] and not its decoding. *)
Theorem safestr_spec (obj : value) :
  safestr obj =
    match obj with
    | VIter true _ items => CList (map safestr items)
    | other => CText (py_str other)
    end
  /\ (truth obj && has_next obj = true ->
      exists t r items, obj = VIter t r items
                        /\ safestr obj = CList (map safestr items))
  /\ (truth obj && has_next obj = false -> safestr obj = CText (py_str obj))
  /\ (forall b, obj = VBytes b -> safestr obj = CText (bytes_repr b))
  /\ safeunicode obj = safestr obj.
Proof.
  split; [destruct obj as [|b|z|s|b|[] r items]; cbn [safestr has_next truth];
          rewrite ?andb_false_r; reflexivity|].
  split.
  { destruct obj as [|b|z|s|b|t r items]; cbn [has_next];
      rewrite ?andb_false_r; try discriminate.
    intros Ht. exists t, r, items. split; [reflexivity|].
    cbn [safestr has_next]. rewrite Ht. reflexivity. }
  split.
  { intros Hf. destruct obj; cbn [safestr]; cbn [safestr] in Hf;
      rewrite Hf; reflexivity. }
  split; [intros b ->; apply safestr_no_next; reflexivity | reflexivity].
Qed.

Lemma safestr_spec_witness :
  safestr (VIter true (txt "<generator>") [VInt 2; VStr (txt "hello")])
  = CList [CText (txt "2"); CText (txt "hello")].
Proof.
  destruct (safestr_spec (VIter true (txt "<generator>")
                            [VInt 2; VStr (txt "hello")]))
    as (_ & H & _).
  destruct (H eq_refl) as (t & r & items & Heq & Hs).
  injection Heq as <- <- <-. rewrite Hs. reflexivity.
Defined.

(** ** [header] *)

Lemma str_contains_char (c : N) (s : list N) :
  str_contains [c] s = true <-> In c s.
Proof.
  induction s as [|x s IH]; cbn [str_contains is_prefix In].
  - split; [discriminate | tauto].
  - rewrite andb_true_r, orb_true_iff, IH, N.eqb_eq. intuition congruence.
Qed.

Lemma has_line_break_text (s : list N) :
  has_line_break (CText s) = true <-> In 10 s \/ In 13 s.
Proof.
  unfold has_line_break. cbn [contains].
  rewrite orb_true_iff, !str_contains_char. reflexivity.
Qed.

Lemma header_guard (a b c d : bool) :
  a || b || c || d = (a || b) || (c || d).
Proof. destruct a, b, c, d; reflexivity. Qed.

Section HeaderFacts.

Variable lower : list N -> list N.

Lemma scan_headers_raises (hdr : coerced) hs e :
  scan_headers lower hdr hs = Raise e -> e = AttributeError "lower".
Proof.
  induction hs as [|[h v] hs IH]; cbn [scan_headers]; [discriminate|].
  destruct h, hdr; cbn [coerced_lower]; try (intros [= <-]; reflexivity).
  case_bool_decide; [discriminate | exact IH].
Qed.

Lemma scan_headers_text (name : list N) hs :
  Forall text_named hs ->
  scan_headers lower (CText name) hs = Return (existsb (same_name lower name) hs).
Proof.
  induction 1 as [|[h v] hs Hh _ IH]; [reflexivity|].
  cbn [scan_headers existsb]. unfold text_named in Hh. cbn [fst] in Hh.
  destruct h as [h|l]; [|contradiction].
  unfold same_name at 1. cbn [coerced_lower fst].
  case_bool_decide; [reflexivity | exact IH].
Qed.

Lemma count_name_filter (name : list N) hs :
  count_name lower name hs = length (List.filter (same_name lower name) hs).
Proof. reflexivity. Qed.

Lemma count_name_zero (name : list N) hs :
  count_name lower name hs = 0%nat <-> existsb (same_name lower name) hs = false.
Proof.
  rewrite count_name_filter.
  induction hs as [|p hs IH]; cbn [List.filter existsb]; [tauto|].
  destruct (same_name lower name p); cbn [length orb]; [|exact IH].
  split; discriminate.
Qed.

Lemma count_name_app (name : list N) hs hs' :
  count_name lower name (hs ++ hs')
  = (count_name lower name hs + count_name lower name hs')%nat.
Proof.
  rewrite !count_name_filter, List.filter_app, length_app. reflexivity.
Qed.

Lemma header_not_unique (hdr value unique : value) headers :
  is_True unique = false ->
  header lower hdr value unique headers =
    if has_line_break (safestr hdr) || has_line_break (safestr value)
    then (headers, Raise (ValueError "invalid characters in header"))
    else append_header (safestr hdr) (safestr value) headers.
Proof.
  intros Hu. unfold header, has_line_break.
  rewrite header_guard, Hu. reflexivity.
Qed.

Lemma header_unique (hdr value : value) headers :
  header lower hdr value (VBool true) headers =
    if has_line_break (safestr hdr) || has_line_break (safestr value)
    then (headers, Raise (ValueError "invalid characters in header"))
    else match headers with
         | None => (headers, Raise (AttributeError "headers"))
         | Some hs =>
             match scan_headers lower (safestr hdr) hs with
             | Raise e => (headers, Raise e)
             | Return true => (headers, Return tt)
             | Return false =>
                 append_header (safestr hdr) (safestr value) headers
             end
         end.
Proof.
  unfold header, has_line_break. rewrite header_guard. reflexivity.
Qed.

End HeaderFacts.

(** The check as the source writes it, with the operator [in]: [header]
    raises [ValueError("invalid characters in header")] exactly when a
    line feed or a carriage return is in the coerced name or in the
    coerced value, and it then leaves [ctx.headers] as it was.  For
    coerced text, being in it means being one of its characters; for a
    list it means being one of its elements. *)
Theorem header_line_break_check
    (lower : list N -> list N) (hdr value unique : value)
    (headers : option (list (coerced * coerced))) :
  (if has_line_break (safestr hdr) || has_line_break (safestr value)
   then header lower hdr value unique headers
        = (headers, Raise (ValueError "invalid characters in header"))
   else snd (header lower hdr value unique headers)
        <> Raise (ValueError "invalid characters in header"))
  /\ (forall s, has_line_break (CText s) = true <-> In 10 s \/ In 13 s).
Proof.
  split; [|apply has_line_break_text].
  destruct (is_True unique) eqn:Hu.
  - destruct unique as [|[]| | | |]; try discriminate.
    rewrite header_unique.
    destruct (has_line_break (safestr hdr) || has_line_break (safestr value));
      [reflexivity|].
    destruct headers as [hs|]; cbn [snd]; [|discriminate].
    destruct (scan_headers lower (safestr hdr) hs) as [[]|e] eqn:Hs;
      cbn [snd append_header]; try discriminate.
    apply scan_headers_raises in Hs. subst e. discriminate.
  - rewrite (header_not_unique lower _ _ _ _ Hu).
    destruct (has_line_break (safestr hdr) || has_line_break (safestr value));
      [reflexivity|].
    destruct headers; cbn [append_header snd]; discriminate.
Qed.

Lemma header_line_break_check_witness :
  header ascii_lower (VStr (txt "X-Info"))
    (VStr (txt "ok" ++ [13; 10] ++ txt "Set-Cookie: a=b")) (VBool false)
    (Some [(CText (txt "Content-Type"), CText (txt "text/html"))])
  = (Some [(CText (txt "Content-Type"), CText (txt "text/html"))],
     Raise (ValueError "invalid characters in header")).
Proof.
  exact (proj1 (header_line_break_check ascii_lower (VStr (txt "X-Info"))
    (VStr (txt "ok" ++ [13; 10] ++ txt "Set-Cookie: a=b")) (VBool false)
    (Some [(CText (txt "Content-Type"), CText (txt "text/html"))]))).
Defined.

Lemma holds_line_break_text (s : list N) :
  holds_line_break (CText s) = has_line_break (CText s).
Proof.
  unfold has_line_break. cbn [holds_line_break contains].
  induction s as [|x s IH]; [reflexivity|].
  cbn [existsb str_contains is_prefix]. rewrite IH, !andb_true_r.
  rewrite (N.eqb_sym 10 x), (N.eqb_sym 13 x).
  destruct (x =? 10), (x =? 13), (str_contains [10] s),
    (str_contains [13] s); reflexivity.
Qed.

(** C3.  The check misses a line break inside an element of a list.  For
    the value given as an iterator over the one text [a], carriage return,
    line feed, [b], [safestr] returns the list with that text; neither of
    the two characters is an element of the list, so [header] raises
    nothing and appends the pair, whose value holds a carriage return and
    a line feed.  For a name and a value that coerce to text the check
    finds every line break. *)
Theorem header_misses_line_break_in_list (lower : list N -> list N) :
  let value := VIter true [] [VStr (txt "a" ++ [13; 10] ++ txt "b")] in
  safestr value = CList [CText (txt "a" ++ [13; 10] ++ txt "b")]
  /\ holds_line_break (safestr value) = true
  /\ has_line_break (safestr value) = false
  /\ header lower (VStr (txt "X")) value (VBool false) (Some [])
     = (Some [(CText (txt "X"),
               CList [CText (txt "a" ++ [13; 10] ++ txt "b")])],
        Return tt)
  /\ forall s, holds_line_break (CText s) = has_line_break (CText s).
Proof.
  cbn zeta. split; [reflexivity|]. split; [reflexivity|].
  split; [reflexivity|]. split; [|apply holds_line_break_text].
  rewrite header_not_unique by reflexivity. reflexivity.
Qed.

(** C8.  With [unique=True], a name that is text and free of line breaks,
    and a header list whose names are text: when the list already has an
    entry whose lower-cased name equals the lower-cased new name, the call
    changes nothing and returns; when it has none, the pair is appended.
    Hence of two such calls whose names differ in case only, the second
    adds nothing, and the list ends up with exactly one entry of that
    name. *)
Theorem header_unique_once
    (lower : list N -> list N) (hdr value hdr2 value2 : value)
    (name name2 : list N) (hs : list (coerced * coerced)) :
  safestr hdr = CText name ->
  safestr hdr2 = CText name2 ->
  has_line_break (safestr hdr) || has_line_break (safestr value) = false ->
  has_line_break (safestr hdr2) || has_line_break (safestr value2) = false ->
  Forall text_named hs ->
  lower name2 = lower name ->
  ((0 < count_name lower name hs)%nat ->
   header lower hdr value (VBool true) (Some hs) = (Some hs, Return tt))
  /\ (count_name lower name hs = 0%nat ->
      let hs1 := hs ++ [(CText name, safestr value)] in
      header lower hdr value (VBool true) (Some hs) = (Some hs1, Return tt)
      /\ header lower hdr2 value2 (VBool true) (Some hs1) = (Some hs1, Return tt)
      /\ count_name lower name hs1 = 1%nat).
Proof.
  intros Hn Hn2 Hb Hb2 Hhs Hlow.
  assert (Hself : same_name lower name (CText name, safestr value) = true).
  { unfold same_name. cbn [fst]. apply bool_decide_eq_true. reflexivity. }
  split.
  - intros Hpos. rewrite header_unique, Hb, Hn, (scan_headers_text _ _ _ Hhs).
    destruct (existsb (same_name lower name) hs) eqn:Hex; [reflexivity|].
    apply count_name_zero in Hex. lia.
  - intros Hzero hs1. split; [|split].
    + rewrite header_unique, Hb, Hn, (scan_headers_text _ _ _ Hhs).
      apply count_name_zero in Hzero. rewrite Hzero. reflexivity.
    + assert (Hhs1 : Forall text_named hs1).
      { apply Forall_app. split; [exact Hhs|].
        constructor; [exact I | constructor]. }
      rewrite header_unique, Hb2, Hn2, (scan_headers_text _ _ _ Hhs1).
      assert (Hex : existsb (same_name lower name2) hs1 = true).
      { unfold hs1. rewrite existsb_app. cbn [existsb].
        unfold same_name at 2. cbn [fst].
        rewrite (bool_decide_eq_true_2 _ (eq_sym Hlow)).
        rewrite orb_true_r. reflexivity. }
      rewrite Hex. reflexivity.
    + unfold hs1. rewrite count_name_app, Hzero, count_name_filter.
      cbn [List.filter]. rewrite Hself. reflexivity.
Qed.

Lemma header_unique_once_witness :
  let hs := [(CText (txt "Content-Type"), CText (txt "text/html"))] in
  let hs1 := hs ++ [(CText (txt "X-Frame-Options"), CText (txt "DENY"))] in
  header ascii_lower (VStr (txt "X-Frame-Options")) (VStr (txt "DENY"))
    (VBool true) (Some hs) = (Some hs1, Return tt)
  /\ header ascii_lower (VStr (txt "x-frame-options")) (VStr (txt "SAMEORIGIN"))
       (VBool true) (Some hs1) = (Some hs1, Return tt)
  /\ count_name ascii_lower (txt "X-Frame-Options") hs1 = 1%nat.
Proof.
  apply (header_unique_once ascii_lower
           (VStr (txt "X-Frame-Options")) (VStr (txt "DENY"))
           (VStr (txt "x-frame-options")) (VStr (txt "SAMEORIGIN"))
           (txt "X-Frame-Options") (txt "x-frame-options")
           [(CText (txt "Content-Type"), CText (txt "text/html"))]).
  - reflexivity.
  - reflexivity.
  - reflexivity.
  - reflexivity.
  - repeat constructor.
  - reflexivity.
  - reflexivity.
Defined.

(** C10.  The test is [unique is True]: for any [unique] other than the
    object [True], the integer 2 or a non-empty string included, [header]
    does what it does for [unique=False]; it looks at no existing entry,
    and, once the line-break check is passed, it appends the pair to
    [ctx.headers] whether or not the name is already there. *)
Theorem header_unique_identity
    (lower : list N -> list N) (hdr value unique : value)
    (headers : option (list (coerced * coerced))) :
  unique <> VBool true ->
  header lower hdr value unique headers
  = header lower hdr value (VBool false) headers
  /\ (forall hs,
        headers = Some hs ->
        has_line_break (safestr hdr) || has_line_break (safestr value) = false ->
        header lower hdr value unique headers
        = (Some (hs ++ [(safestr hdr, safestr value)]), Return tt)).
Proof.
  intros Hu.
  assert (Hf : is_True unique = false).
  { destruct unique as [|[]| | | |]; try reflexivity. congruence. }
  split.
  - rewrite (header_not_unique lower _ _ _ _ Hf).
    rewrite (header_not_unique lower _ _ (VBool false)); reflexivity.
  - intros hs -> Hb. rewrite (header_not_unique lower _ _ _ _ Hf), Hb.
    reflexivity.
Qed.

Lemma header_unique_identity_witness :
  let hs := [(CText (txt "x-a"), CText (txt "0"))] in
  header ascii_lower (VStr (txt "X-A")) (VStr (txt "1")) (VInt 2) (Some hs)
  = (Some (hs ++ [(CText (txt "X-A"), CText (txt "1"))]), Return tt).
Proof.
  intros hs.
  apply (proj2 (header_unique_identity ascii_lower (VStr (txt "X-A"))
                  (VStr (txt "1")) (VInt 2) (Some hs) ltac:(discriminate)) hs).
  - reflexivity.
  - reflexivity.
Defined.

(** The same call with a non-empty string for [unique], and with [True]. *)
Example header_unique_string :
  let hs := [(CText (txt "x-a"), CText (txt "0"))] in
  header ascii_lower (VStr (txt "X-A")) (VStr (txt "1")) (VStr (txt "yes"))
    (Some hs)
  = (Some (hs ++ [(CText (txt "X-A"), CText (txt "1"))]), Return tt)
  /\ header ascii_lower (VStr (txt "X-A")) (VStr (txt "1")) (VBool true)
       (Some hs)
     = (Some hs, Return tt).
Proof. split; reflexivity. Qed.

(** ** Dictionaries and [Storage] *)

Section DictFacts.

Context {V : Type}.
Implicit Types (d : list (string * V)) (k : string) (v : V).

Lemma find_put_same k v d : PyDict.find k (PyDict.put k v d) = Some v.
Proof.
  induction d as [|[k' v'] d IH]; cbn [PyDict.put PyDict.find].
  - rewrite String.eqb_refl. reflexivity.
  - destruct (String.eqb k k') eqn:E; cbn [PyDict.find]; rewrite E;
      [reflexivity | exact IH].
Qed.

Lemma find_put_other k k' v d :
  k <> k' -> PyDict.find k' (PyDict.put k v d) = PyDict.find k' d.
Proof.
  intros Hne. induction d as [|[k0 v0] d IH]; cbn [PyDict.put PyDict.find].
  - destruct (String.eqb_spec k' k); [congruence | reflexivity].
  - destruct (String.eqb_spec k k0) as [->|Hk]; cbn [PyDict.find].
    + destruct (String.eqb_spec k' k0); [congruence | reflexivity].
    + rewrite IH. reflexivity.
Qed.

Lemma find_drop_key_other k k' d :
  k <> k' -> PyDict.find k' (PyDict.drop_key k d) = PyDict.find k' d.
Proof.
  intros Hne. induction d as [|[k0 v0] d IH];
    cbn [PyDict.drop_key PyDict.find]; [reflexivity|].
  destruct (String.eqb_spec k k0) as [->|Hk]; cbn [PyDict.find].
  - destruct (String.eqb_spec k' k0); [congruence | reflexivity].
  - rewrite IH. reflexivity.
Qed.

Lemma find_none_not_key k d :
  PyDict.find k d = None -> ~ In k (map fst d).
Proof.
  induction d as [|[k0 v0] d IH]; cbn [PyDict.find map In fst]; [tauto|].
  destruct (String.eqb_spec k k0); [discriminate|].
  intros Hf [Heq|Hin]; [congruence | exact (IH Hf Hin)].
Qed.

Lemma find_some_key k v d :
  PyDict.find k d = Some v -> In k (map fst d).
Proof.
  induction d as [|[k0 v0] d IH]; cbn [PyDict.find map In fst];
    [discriminate|].
  destruct (String.eqb_spec k k0); [left; congruence | right; auto].
Qed.

Lemma find_drop_key_same k d :
  List.NoDup (map fst d) -> PyDict.find k (PyDict.drop_key k d) = None.
Proof.
  induction d as [|[k0 v0] d IH]; cbn [PyDict.drop_key map fst];
    [reflexivity|].
  intros Hnd. apply List.NoDup_cons_iff in Hnd as [Hk0 Hnd].
  destruct (String.eqb_spec k k0) as [->|Hk].
  - destruct (PyDict.find k0 d) eqn:Hf; [|reflexivity].
    exfalso. apply Hk0. exact (find_some_key _ _ _ Hf).
  - cbn [PyDict.find]. destruct (String.eqb_spec k k0); [congruence|].
    apply IH, Hnd.
Qed.

Lemma existsb_eqb_In k (l : list string) :
  existsb (String.eqb k) l = true <-> In k l.
Proof.
  rewrite existsb_exists. split.
  - intros (x & Hx & ->%String.eqb_eq). exact Hx.
  - intros Hin. exists k. split; [exact Hin | apply String.eqb_refl].
Qed.

End DictFacts.

(** The session of the class documentation: [o = storage(a=1)], [o.a],
    [o['a']], [o.a = 2], [o['a']], [del o.a], [o.a]. *)
Example storage_session :
  let o := [("a"%string, 1%Z)] in
  Storage.member_read Storage.dict_methods "a" o = Return (Storage.FromMap 1%Z)
  /\ PyDict.getitem "a" o = Return 1%Z
  /\ let o := Storage.member_write "a" 2%Z o in
     PyDict.getitem "a" o = Return 2%Z
     /\ let (o, r) := Storage.member_delete "a" o in
        r = Return tt
        /\ Storage.member_read Storage.dict_methods "a" o
           = Raise (AttributeError "a").
Proof. repeat split. Qed.

(** C5, as the specification has it, fails on the key [keys]: the entry is
    in the map and the map read returns it, while [o.keys] is the method
    that [Storage] inherits from [dict]. *)
Lemma member_read_keys_is_method :
  let o := [("keys"%string, 1%Z)] in
  PyDict.getitem "keys" o = Return 1%Z
  /\ Storage.member_read Storage.dict_methods "keys" o
     = Return (Storage.FromClass "keys")
  /\ Storage.member_read Storage.dict_methods "keys" o
     <> Return (Storage.FromMap 1%Z).
Proof. repeat split. discriminate. Qed.

(** C5, amended.  Writing and deleting a member are the map's assignment
    and deletion for every key, and a written member is read back.  Reading
    a member is the map's read for every key that is not the name of an
    attribute of the class; for such a name the read yields that attribute.
    Where the key is absent, the member read (for a key that is not a class
    attribute) and the member deletion raise [AttributeError] with the key,
    where the map operations raise [KeyError]. *)
Theorem storage_member_access {V : Type}
    (class_attrs : list string) (key : string) (self : list (string * V)) :
  (forall value,
     Storage.member_write key value self = PyDict.setitem key value self
     /\ PyDict.getitem key (Storage.member_write key value self) = Return value
     /\ (~ In key class_attrs ->
         Storage.member_read class_attrs key
           (Storage.member_write key value self)
         = Return (Storage.FromMap value)))
  /\ match PyDict.find key self with
     | Some v =>
         PyDict.getitem key self = Return v
         /\ (~ In key class_attrs ->
             Storage.member_read class_attrs key self
             = Return (Storage.FromMap v))
         /\ PyDict.delitem key self = (PyDict.drop_key key self, Return tt)
         /\ Storage.member_delete key self = PyDict.delitem key self
     | None =>
         PyDict.getitem key self = Raise (KeyError key)
         /\ (~ In key class_attrs ->
             Storage.member_read class_attrs key self
             = Raise (AttributeError key))
         /\ PyDict.delitem key self = (self, Raise (KeyError key))
         /\ Storage.member_delete key self = (self, Raise (AttributeError key))
     end
  /\ (In key class_attrs ->
      Storage.member_read class_attrs key self
      = Return (Storage.FromClass key)).
Proof.
  assert (Hread : forall d : list (string * V), ~ In key class_attrs ->
            Storage.member_read class_attrs key d =
            match Storage.__getattr__ key d with
            | Return v => Return (Storage.FromMap v)
            | Raise e => Raise e
            end).
  { intros d Hn. unfold Storage.member_read.
    destruct (existsb (String.eqb key) class_attrs) eqn:E; [|reflexivity].
    apply existsb_eqb_In in E. contradiction. }
  split; [|split].
  - intros value. split; [reflexivity|].
    unfold Storage.member_write, Storage.__setattr__, PyDict.setitem.
    split.
    + unfold PyDict.getitem. rewrite find_put_same. reflexivity.
    + intros Hn. rewrite (Hread _ Hn).
      unfold Storage.__getattr__, PyDict.getitem.
      rewrite find_put_same. reflexivity.
  - unfold Storage.member_delete, Storage.__delattr__, Storage.__getattr__,
      PyDict.delitem, PyDict.getitem.
    destruct (PyDict.find key self) as [v|] eqn:Hf.
    + repeat split. intros Hn. rewrite (Hread _ Hn).
      unfold Storage.__getattr__, PyDict.getitem. rewrite Hf. reflexivity.
    + repeat split. intros Hn. rewrite (Hread _ Hn).
      unfold Storage.__getattr__, PyDict.getitem. rewrite Hf. reflexivity.
  - intros Hin. unfold Storage.member_read.
    apply existsb_eqb_In in Hin. rewrite Hin. reflexivity.
Qed.

Lemma storage_member_access_witness :
  Storage.member_read Storage.dict_methods "debug" [("debug"%string, true)]
  = Return (Storage.FromMap true).
Proof.
  pose proof (storage_member_access Storage.dict_methods "debug"
                [("debug"%string, true)]) as (_ & H & _).
  cbn in H. apply H.
  unfold Storage.dict_methods. cbn [In].
  intros Hin. repeat destruct Hin as [Hin|Hin]; try discriminate Hin.
  exact Hin.
Defined.

(** ** [ThreadedDict] *)

Section ThreadedDictFacts.

Context {V : Type}.
Variable none : V.
Implicit Types (st : ThreadedDict.state (V := V)) (tid other self : nat).

Lemma invoke_own self tid m st :
  ThreadedDict.__dict__ self tid (fst (ThreadedDict.invoke none self tid m st))
  = fst (ThreadedDict.call none m (ThreadedDict.__dict__ self tid st))
  /\ snd (ThreadedDict.invoke none self tid m st)
     = snd (ThreadedDict.call none m (ThreadedDict.__dict__ self tid st)).
Proof.
  unfold ThreadedDict.invoke.
  destruct (ThreadedDict.call none m (ThreadedDict.__dict__ self tid st))
    as [d r].
  split; [|reflexivity].
  unfold ThreadedDict.__dict__. cbn.
  rewrite lookup_insert_eq. reflexivity.
Qed.

Lemma invoke_frame self tid m st h other :
  (self, tid) <> (h, other) ->
  ThreadedDict.__dict__ h other (fst (ThreadedDict.invoke none self tid m st))
  = ThreadedDict.__dict__ h other st.
Proof.
  intros Hne. unfold ThreadedDict.invoke.
  destruct (ThreadedDict.call none m (ThreadedDict.__dict__ self tid st))
    as [d r].
  unfold ThreadedDict.__dict__. cbn.
  rewrite lookup_insert_ne by exact Hne. reflexivity.
Qed.


(** One round of the loop of [clear_all]. *)
Lemma clear_each_cons t (l : list nat) tid st :
  ThreadedDict.clear_each none (t :: l) tid st =
    match snd (ThreadedDict.invoke none t tid ThreadedDict.Clear st) with
    | Return _ =>
        ThreadedDict.clear_each none l tid
          (fst (ThreadedDict.invoke none t tid ThreadedDict.Clear st))
    | Raise e =>
        (fst (ThreadedDict.invoke none t tid ThreadedDict.Clear st), Raise e)
    end.
Proof.
  cbn [ThreadedDict.clear_each]. unfold ThreadedDict.clear.
  destruct (ThreadedDict.invoke none t tid ThreadedDict.Clear st) as [st' [r|e]];
    reflexivity.
Qed.

Lemma clear_each_frame (l : list nat) tid st h other :
  tid <> other ->
  ThreadedDict.__dict__ h other
    (fst (ThreadedDict.clear_each none l tid st))
  = ThreadedDict.__dict__ h other st.
Proof.
  intros Hne. revert st. induction l as [|t l IH]; intros st; [reflexivity|].
  rewrite clear_each_cons.
  destruct (snd (ThreadedDict.invoke none t tid ThreadedDict.Clear st));
    [rewrite IH | cbn [fst]]; apply invoke_frame; congruence.
Qed.

Lemma step_frame tid other a st h :
  tid <> other ->
  ThreadedDict.__dict__ h other (fst (ThreadedDict.step none tid a st))
  = ThreadedDict.__dict__ h other st.
Proof.
  intros Hne. destruct a as [self m| |self]; cbn [ThreadedDict.step fst].
  - apply invoke_frame. congruence.
  - apply clear_each_frame, Hne.
  - reflexivity.
Qed.

Lemma run_frame (sched : list (nat * ThreadedDict.action)) st h other :
  Forall (fun p => fst p <> other) sched ->
  ThreadedDict.__dict__ h other (ThreadedDict.run none sched st)
  = ThreadedDict.__dict__ h other st.
Proof.
  intros Hs. revert st.
  induction Hs as [|[tid a] sched Ht _ IH]; intros st; [reflexivity|].
  cbn [ThreadedDict.run]. rewrite IH. apply step_frame. exact Ht.
Qed.



End ThreadedDictFacts.

(** C9.  With the state an explicit map keyed by instance and thread:
    whatever one thread does (any method on any instance, [clear_all], a
    construction) leaves the dictionary every other thread sees on every
    instance as it was; what a method returns and the dictionary it leaves
    depend on the calling thread's own dictionary only; and a thread that
    has stored a value under a key reads that value back after any
    activity of other threads, their writes to the same key of the same
    instance included. *)
Theorem threaded_dict_isolation {V : Type} (none : V) :
  (forall (tid other : nat) (a : ThreadedDict.action) st (h : nat),
     tid <> other ->
     ThreadedDict.__dict__ h other (fst (ThreadedDict.step none tid a st))
     = ThreadedDict.__dict__ h other st)
  /\ (forall (self tid : nat) (m : ThreadedDict.method) st,
        snd (ThreadedDict.invoke none self tid m st)
        = snd (ThreadedDict.call none m (ThreadedDict.__dict__ self tid st))
        /\ ThreadedDict.__dict__ self tid
             (fst (ThreadedDict.invoke none self tid m st))
           = fst (ThreadedDict.call none m (ThreadedDict.__dict__ self tid st)))
  /\ (forall (self tid : nat) (key : string) (v : V) sched st,
        Forall (fun p => fst p <> tid) sched ->
        snd (ThreadedDict.invoke none self tid (ThreadedDict.Getitem key)
               (ThreadedDict.run none sched
                  (fst (ThreadedDict.invoke none self tid
                          (ThreadedDict.Setitem key v) st))))
        = Return (ThreadedDict.RValue v)).
Proof.
  split; [|split].
  - intros. apply step_frame. assumption.
  - intros. split; apply invoke_own.
  - intros self tid key v sched st Hs.
    rewrite (proj2 (invoke_own _ _ _ _ _)).
    rewrite run_frame by exact Hs.
    rewrite (proj1 (invoke_own _ _ _ _ _)).
    cbn [ThreadedDict.call ThreadedDict.method_name ThreadedDict.body
           PyDict.setitem fst].
    unfold PyDict.getitem. rewrite find_put_same. reflexivity.
Qed.

(** Thread 0 sets [x] to 1, thread 1 sets [x] to 2 on the same instance and
    clears everything it can; thread 0 still reads 1, thread 1 reads what
    it left. *)
Lemma threaded_dict_isolation_witness :
  let d := 0%nat in
  let st :=
    ThreadedDict.run VNone
      [(0%nat, ThreadedDict.Init d);
       (0%nat, ThreadedDict.Invoke d (ThreadedDict.Setitem "x" (VInt 1)))]
      ThreadedDict.initial in
  snd (ThreadedDict.invoke VNone d 0
         (ThreadedDict.Getitem "x")
         (ThreadedDict.run VNone
            [(1%nat, ThreadedDict.Invoke d (ThreadedDict.Setitem "x" (VInt 2)));
             (1%nat, ThreadedDict.ClearAll);
             (1%nat, ThreadedDict.Invoke d (ThreadedDict.Setitem "x" (VInt 3)))]
            st))
  = Return (ThreadedDict.RValue (VInt 1)).
Proof.
  intros d st.
  apply (proj2 (proj2 (threaded_dict_isolation VNone)) d 0%nat "x"%string
           (VInt 1)).
  repeat constructor; cbn; lia.
Defined.

(** ** [Memoize] *)

Section MemoizeFacts.

Context {Key : Type} `{Countable Key}.
Context {World Value Error : Type}.
Variable func : Key -> World -> World * (Value + Error).
Variable time : World -> Z.

Abbreviation memo := (Memoize.memo (Key := Key) (Value := Value)).
Abbreviation call := (Memoize.__call__ func time).
Implicit Types (self : memo) (key : Key) (w : World).

Lemma ensure_lock_cache key self :
  Memoize.cache (Memoize.ensure_lock key self) = Memoize.cache self
  /\ Memoize.expires (Memoize.ensure_lock key self) = Memoize.expires self
  /\ Memoize.background (Memoize.ensure_lock key self)
     = Memoize.background self
  /\ Memoize.spawned (Memoize.ensure_lock key self) = Memoize.spawned self.
Proof.
  unfold Memoize.ensure_lock.
  destruct (Memoize.running self !! key); repeat split.
Qed.

Lemma ensure_lock_running key self :
  Memoize.running (Memoize.ensure_lock key self) !! key
  = Some (default false (Memoize.running self !! key)).
Proof.
  unfold Memoize.ensure_lock.
  destruct (Memoize.running self !! key) eqn:E; cbn.
  - exact E.
  - apply lookup_insert_eq.
Qed.

Lemma ensure_lock_running_other key key' self :
  key <> key' ->
  Memoize.running (Memoize.ensure_lock key self) !! key'
  = Memoize.running self !! key'.
Proof.
  intros Hne. unfold Memoize.ensure_lock.
  destruct (Memoize.running self !! key); cbn; [reflexivity|].
  apply lookup_insert_ne, Hne.
Qed.

Lemma ensure_lock_present key self b :
  Memoize.running self !! key = Some b ->
  Memoize.ensure_lock key self = self.
Proof. unfold Memoize.ensure_lock. intros ->. reflexivity. Qed.

Lemma ensure_lock_free key self :
  Memoize.locks_free self -> Memoize.locks_free (Memoize.ensure_lock key self).
Proof.
  intros Hfree key'. destruct (decide (key = key')) as [<-|Hne].
  - rewrite ensure_lock_running.
    specialize (Hfree key).
    destruct (Memoize.running self !! key) as [[]|]; cbn; congruence.
  - rewrite ensure_lock_running_other by exact Hne. apply Hfree.
Qed.

(** A miss: the lock is taken, the function runs once, and the lock is
    given back. *)
Lemma call_miss key self w :
  Memoize.running self !! key <> Some true ->
  Memoize.cache self !! key = None ->
  call key self w =
    let self1 := Memoize.ensure_lock key self in
    match func key w with
    | (w', inl v) =>
        (Memoize.set_cache (<[key := (v, time w')]> (Memoize.cache self1))
           self1, w', Memoize.Returned v)
    | (w', inr e) => (self1, w', Memoize.Raised e)
    end.
Proof.
  intros Hlock Hmiss.
  assert (Hrun : Memoize.running (Memoize.ensure_lock key self) !! key
                 = Some false).
  { rewrite ensure_lock_running.
    destruct (Memoize.running self !! key) as [[]|]; [congruence| |];
      reflexivity. }
  assert (Hc : Memoize.cache (Memoize.ensure_lock key self) !! key = None).
  { rewrite (proj1 (ensure_lock_cache key self)). exact Hmiss. }
  unfold Memoize.__call__. cbn zeta.
  generalize dependent (Memoize.ensure_lock key self). intros self1 Hrun Hc.
  rewrite Hc. rewrite bool_decide_eq_false_2 by (intros [? ?]; discriminate).
  cbn [negb]. unfold Memoize.update. rewrite Hrun.
  destruct (func key w) as [w' [v|e]]; cbn [Memoize.after_update];
    [|reflexivity].
  unfold Memoize.cached. cbn [Memoize.set_cache Memoize.cache].
  rewrite lookup_insert_eq. reflexivity.
Qed.

(** A hit without expiry: nothing runs and nothing changes. *)
Lemma call_settled key v self w :
  Memoize.settled key v self ->
  call key self w = (self, w, Memoize.Returned v).
Proof.
  intros (Hexp & _ & _ & (t & Hc) & Hrun). unfold Memoize.__call__.
  rewrite (ensure_lock_present _ _ _ Hrun), Hc.
  rewrite bool_decide_eq_true_2 by eauto. cbn [negb].
  unfold Memoize.stale, Memoize.cached. rewrite Hexp, Hc. reflexivity.
Qed.

Lemma call_keeps_settled key v k self w :
  Memoize.settled key v self ->
  Memoize.settled key v (fst (fst (call k self w))).
Proof.
  intros Hs. destruct (decide (k = key)) as [->|Hne].
  { rewrite (call_settled _ _ _ _ Hs). exact Hs. }
  destruct Hs as (Hexp & Hfree & Hsp & (t & Hc) & Hrun).
  assert (Hs1 : Memoize.settled key v (Memoize.ensure_lock k self)).
  { destruct (ensure_lock_cache k self) as (Hc1 & He1 & _ & Hsp1).
    unfold Memoize.settled. rewrite Hc1, He1, Hsp1.
    rewrite ensure_lock_running_other by exact Hne.
    repeat split; eauto using ensure_lock_free. }
  destruct (Memoize.cache self !! k) as [[v' t']|] eqn:Hk.
  - unfold Memoize.__call__.
    destruct (ensure_lock_cache k self) as (Hc1 & He1 & _).
    rewrite Hc1, Hk. rewrite bool_decide_eq_true_2 by eauto. cbn [negb].
    unfold Memoize.stale. rewrite He1, Hexp. exact Hs1.
  - rewrite call_miss by (auto using Hfree).
    cbn zeta. destruct (func k w) as [w' [r|e]]; cbn [fst]; [|exact Hs1].
    destruct Hs1 as (He1 & Hf1 & Hsp1 & (t1 & Hc1) & Hr1).
    unfold Memoize.settled. cbn [Memoize.set_cache Memoize.expires
      Memoize.spawned Memoize.cache Memoize.running].
    repeat split; auto.
    exists t1. rewrite lookup_insert_ne by exact Hne. exact Hc1.
Qed.

Lemma init_quiet (background : bool) :
  Memoize.quiet (Memoize.__init__ (Key := Key) (Value := Value) None background).
Proof.
  repeat split. intros key. cbn. rewrite lookup_empty. discriminate.
Qed.

Lemma call_keeps_quiet k self w :
  Memoize.quiet self -> Memoize.quiet (fst (fst (call k self w))).
Proof.
  intros (Hexp & Hfree & Hsp).
  assert (Hq1 : Memoize.quiet (Memoize.ensure_lock k self)).
  { destruct (ensure_lock_cache k self) as (_ & He1 & _ & Hsp1).
    unfold Memoize.quiet. rewrite He1, Hsp1.
    repeat split; auto using ensure_lock_free. }
  destruct (Memoize.cache self !! k) as [[v' t']|] eqn:Hk.
  - unfold Memoize.__call__.
    destruct (ensure_lock_cache k self) as (Hc1 & He1 & _).
    rewrite Hc1, Hk. rewrite bool_decide_eq_true_2 by eauto. cbn [negb].
    unfold Memoize.stale. rewrite He1, Hexp. exact Hq1.
  - rewrite call_miss by auto.
    cbn zeta. destruct (func k w) as [w' [r|e]]; cbn [fst]; exact Hq1.
Qed.

Lemma occur_all_keeps_quiet evs self w :
  Memoize.quiet self ->
  Memoize.quiet (fst (Memoize.occur_all func time evs self w)).
Proof.
  revert self w. induction evs as [|ev evs IH]; intros self w Hq; [exact Hq|].
  cbn [Memoize.occur_all].
  assert (Hq' : Memoize.quiet (fst (Memoize.occur func time ev self w))).
  { destruct ev as [k|k|f]; cbn [Memoize.occur].
    - apply call_keeps_quiet, Hq.
    - pose proof Hq as (_ & _ & Hsp). rewrite Hsp.
      rewrite bool_decide_eq_false_2 by (apply not_elem_of_nil). exact Hq.
    - exact Hq. }
  destruct (Memoize.occur func time ev self w) as [self' w'].
  apply IH, Hq'.
Qed.

Lemma occur_keeps_settled key v ev self w :
  Memoize.settled key v self ->
  Memoize.settled key v (fst (Memoize.occur func time ev self w)).
Proof.
  intros Hs. destruct ev as [k|k|f]; cbn [Memoize.occur].
  - apply call_keeps_settled, Hs.
  - pose proof Hs as (_ & _ & Hsp & _). rewrite Hsp.
    rewrite bool_decide_eq_false_2 by (apply not_elem_of_nil).
    exact Hs.
  - exact Hs.
Qed.

Lemma occur_all_keeps_settled key v evs self w :
  Memoize.settled key v self ->
  Memoize.settled key v (fst (Memoize.occur_all func time evs self w)).
Proof.
  revert self w. induction evs as [|ev evs IH]; intros self w Hs; [exact Hs|].
  cbn [Memoize.occur_all].
  pose proof (occur_keeps_settled key v ev self w Hs) as Hs'.
  destruct (Memoize.occur func time ev self w) as [self' w'].
  apply IH, Hs'.
Qed.

End MemoizeFacts.

(** C4.  In a cache without expiry and at rest (as it is when built and
    stays between calls, see [occur_all_keeps_quiet]), a call on a key that
    is not cached, for which the wrapped function returns [v], runs the
    function once (the world moves as one
    run of the function moves it), stores [v] with the time of the clock
    and returns [v].  After that, whatever calls and outside changes come
    in between, a call on the same key returns [v] and changes neither the
    world nor the cache: the function is not run again. *)
Theorem memoize_caches_first_result
    {Key : Type} `{Countable Key} {World Value Error : Type}
    (func : Key -> World -> World * (Value + Error)) (time : World -> Z)
    (key : Key) (self : Memoize.memo (Key := Key) (Value := Value))
    (w w' : World) (v : Value) :
  Memoize.quiet self ->
  Memoize.cache self !! key = None ->
  func key w = (w', inl v) ->
  exists self1,
    Memoize.__call__ func time key self w = (self1, w', Memoize.Returned v)
    /\ Memoize.cache self1 !! key = Some (v, time w')
    /\ forall evs,
         let (self2, w2) := Memoize.occur_all func time evs self1 w' in
         Memoize.__call__ func time key self2 w2
         = (self2, w2, Memoize.Returned v).
Proof.
  intros (Hexp & Hfree & Hsp) Hmiss Hf.
  rewrite call_miss by auto. cbn zeta. rewrite Hf.
  eexists. split; [reflexivity|].
  cbn [Memoize.set_cache Memoize.cache]. rewrite lookup_insert_eq.
  split; [reflexivity|].
  intros evs.
  match goal with
  | |- context [Memoize.occur_all _ _ _ ?s _] =>
      assert (Hs : Memoize.settled key v s)
  end.
  { destruct (ensure_lock_cache key self) as (_ & He & _ & Hs1).
    unfold Memoize.settled.
    cbn [Memoize.set_cache Memoize.expires Memoize.spawned Memoize.cache
           Memoize.running].
    rewrite He, Hs1, lookup_insert_eq, ensure_lock_running.
    split; [exact Hexp|]. split; [|split; [exact Hsp|split; [eauto|]]].
    - intros k. apply (ensure_lock_free key self Hfree k).
    - specialize (Hfree key).
      destruct (Memoize.running self !! key) as [[]|]; cbn; congruence. }
  pose proof (occur_all_keeps_settled func time key v evs _ w' Hs) as Hs'.
  destruct (Memoize.occur_all func time evs _ w') as [self2 w2].
  apply call_settled, Hs'.
Qed.

(** The session of the documentation: the counter has been called twice,
    [fastcalls()] gives 3, and gives 3 again whatever happened since. *)
Lemma memoize_caches_first_result_witness :
  exists self1,
    Memoize.__call__ howmanytimeshaveibeencalled (fun _ => 0%Z) tt
      (Memoize.__init__ None true) 2%nat
    = (self1, 3%nat, Memoize.Returned 3%nat)
    /\ Memoize.cache self1 !! tt = Some (3%nat, 0%Z)
    /\ forall evs,
         let (self2, w2) :=
           Memoize.occur_all howmanytimeshaveibeencalled (fun _ => 0%Z)
             evs self1 3%nat in
         Memoize.__call__ howmanytimeshaveibeencalled (fun _ => 0%Z) tt
           self2 w2
         = (self2, w2, Memoize.Returned 3%nat).
Proof.
  apply (memoize_caches_first_result howmanytimeshaveibeencalled
           (fun _ => 0%Z) tt (Memoize.__init__ None true) 2%nat 3%nat 3%nat).
  - repeat split. intros key. cbn. rewrite lookup_empty. discriminate.
  - reflexivity.
  - reflexivity.
Defined.

(** C7.  When the wrapped function raises on a call that misses the
    cache, the call raises the same exception, the cache is what it was
    (the key is still not in it; only the lock of the key has been created
    and is free again), and the next call on the key runs the function
    anew: it returns or raises what the function then does. *)
Theorem memoize_failure_not_cached
    {Key : Type} `{Countable Key} {World Value Error : Type}
    (func : Key -> World -> World * (Value + Error)) (time : World -> Z)
    (key : Key) (self : Memoize.memo (Key := Key) (Value := Value))
    (w w' : World) (e : Error) :
  Memoize.running self !! key <> Some true ->
  Memoize.cache self !! key = None ->
  func key w = (w', inr e) ->
  let self1 := Memoize.ensure_lock key self in
  Memoize.__call__ func time key self w = (self1, w', Memoize.Raised e)
  /\ Memoize.cache self1 = Memoize.cache self
  /\ Memoize.running self1 !! key = Some false
  /\ forall w2,
       Memoize.__call__ func time key self1 w2 =
         match func key w2 with
         | (w3, inl v) =>
             (Memoize.set_cache (<[key := (v, time w3)]> (Memoize.cache self1))
                self1, w3, Memoize.Returned v)
         | (w3, inr e2) => (self1, w3, Memoize.Raised e2)
         end.
Proof.
  intros Hlock Hmiss Hf self1.
  assert (Hrun : Memoize.running self1 !! key = Some false).
  { unfold self1. rewrite ensure_lock_running.
    destruct (Memoize.running self !! key) as [[]|]; [congruence| |];
      reflexivity. }
  assert (Hc : Memoize.cache self1 = Memoize.cache self)
    by apply ensure_lock_cache.
  split; [|split; [exact Hc|split; [exact Hrun|]]].
  - rewrite call_miss by assumption. cbn zeta. rewrite Hf. reflexivity.
  - intros w2. rewrite call_miss by (rewrite ?Hc, ?Hrun; congruence).
    cbn zeta. rewrite (ensure_lock_present _ _ _ Hrun). reflexivity.
Qed.

Lemma memoize_failure_not_cached_witness :
  let self1 := Memoize.ensure_lock tt (Memoize.__init__ None true) in
  Memoize.__call__ flaky (fun _ => 0%Z) tt (Memoize.__init__ None true) 0%nat
  = (self1, 1%nat, Memoize.Raised (ValueError "not ready"))
  /\ Memoize.cache self1 = ∅
  /\ Memoize.running self1 !! tt = Some false
  /\ forall w2,
       Memoize.__call__ flaky (fun _ => 0%Z) tt self1 w2 =
         match flaky tt w2 with
         | (w3, inl v) =>
             (Memoize.set_cache (<[tt := (v, 0%Z)]> (Memoize.cache self1))
                self1, w3, Memoize.Returned v)
         | (w3, inr e2) => (self1, w3, Memoize.Raised e2)
         end.
Proof.
  apply (memoize_failure_not_cached flaky (fun _ => 0%Z) tt
           (Memoize.__init__ None true) 0%nat 1%nat (ValueError "not ready")).
  - cbn. rewrite lookup_empty. discriminate.
  - reflexivity.
  - reflexivity.
Defined.

(** * Further properties *)

(** ** HTML escaping *)

(** X1.  Whatever the input, the text [htmlquote] returns has no
    less-than sign, no greater-than sign, no apostrophe and no double
    quote in it. *)
Theorem htmlquote_safe (t : list N) :
  forallb (fun c => negb (markup_char c)) (htmlquote t) = true.
Proof.
  apply forallb_forall. intros c Hc.
  apply negb_true_iff, (htmlquote_no_markup t), Hc.
Qed.

(** X2.  Escaping two pieces of text and joining them is escaping the
    joined text. *)
Theorem htmlquote_app (a b : list N) :
  htmlquote (a ++ b) = htmlquote a ++ htmlquote b.
Proof. rewrite !htmlquote_chars. apply flat_map_app. Qed.

Lemma escape_char_cases (c : N) :
  (html_sensitive c = false /\ escape_char c = [c])
  \/ (c = 38 /\ escape_char c = [38; 97; 109; 112; 59])
  \/ (c = 60 /\ escape_char c = [38; 108; 116; 59])
  \/ (c = 62 /\ escape_char c = [38; 103; 116; 59])
  \/ (c = 39 /\ escape_char c = [38; 35; 51; 57; 59])
  \/ (c = 34 /\ escape_char c = [38; 113; 117; 111; 116; 59]).
Proof.
  unfold escape_char, html_sensitive.
  destruct (N.eqb_spec c 38) as [->|]; [tauto|].
  destruct (N.eqb_spec c 60) as [->|]; [tauto|].
  destruct (N.eqb_spec c 62) as [->|]; [tauto|].
  destruct (N.eqb_spec c 39) as [->|]; [tauto|].
  destruct (N.eqb_spec c 34) as [->|]; [tauto|].
  left. split; reflexivity.
Qed.

Lemma escape_char_head (x y : N) (r1 r2 : list N) :
  escape_char x ++ r1 = escape_char y ++ r2 -> x = y.
Proof.
  destruct (escape_char_cases x) as [[Hx ->]|Hx];
    destruct (escape_char_cases y) as [[Hy ->]|Hy].
  - intros [= ->]. reflexivity.
  - decompose [or and] Hy; subst;
      match goal with H : escape_char _ = _ |- _ => rewrite H end;
      intros [= -> _]; discriminate Hx.
  - decompose [or and] Hx; subst;
      match goal with H : escape_char _ = _ |- _ => rewrite H end;
      intros [= <- _]; discriminate Hy.
  - decompose [or and] Hx; decompose [or and] Hy; subst;
      repeat match goal with H : escape_char _ = _ |- _ => rewrite H; clear H end;
      intros Heq; try reflexivity; discriminate Heq.
Qed.

Lemma escape_char_nonempty (c : N) : escape_char c <> [].
Proof.
  destruct (escape_char_cases c) as [[_ Hc]|Hc];
    [|decompose [or and] Hc]; congruence.
Qed.

(** X3.  [htmlquote] loses nothing: two texts with the same escaped form
    are the same text. *)
Theorem htmlquote_injective (a b : list N) :
  htmlquote a = htmlquote b -> a = b.
Proof.
  rewrite !htmlquote_chars. revert b.
  induction a as [|x a IH]; intros [|y b]; cbn [flat_map].
  - reflexivity.
  - intros Heq. symmetry in Heq. apply app_eq_nil in Heq as [Hy _].
    destruct (escape_char_nonempty _ Hy).
  - intros Heq. apply app_eq_nil in Heq as [Hx _].
    destruct (escape_char_nonempty _ Hx).
  - intros Heq. pose proof (escape_char_head _ _ _ _ Heq) as ->.
    apply app_inv_head in Heq. f_equal. apply IH, Heq.
Qed.

Lemma htmlquote_injective_witness :
  txt "a<b" ++ [38] = [97; 60; 98; 38].
Proof.
  apply (htmlquote_injective (txt "a<b" ++ [38]) [97; 60; 98; 38]).
  reflexivity.
Defined.

Lemma escape_char_length (c : N) :
  (1 <= length (escape_char c))%nat
  /\ (html_sensitive c = true -> 4 <= length (escape_char c))%nat.
Proof.
  destruct (escape_char_cases c) as [[Hs Hc]|Hc].
  - rewrite Hc, Hs. cbn. split; [lia | discriminate].
  - decompose [or and] Hc; subst;
      match goal with H : escape_char _ = _ |- _ => rewrite H end;
      cbn; split; lia.
Qed.

Lemma htmlquote_length (t : list N) :
  (length t <= length (htmlquote t))%nat
  /\ (forallb (fun c => negb (html_sensitive c)) t = false ->
      length t < length (htmlquote t))%nat.
Proof.
  rewrite htmlquote_chars.
  induction t as [|c t [IH1 IH2]]; cbn [flat_map forallb length].
  - split; [lia | discriminate].
  - rewrite length_app.
    destruct (escape_char_length c) as [Hc1 Hc4].
    split; [lia|].
    destruct (html_sensitive c) eqn:Hs; cbn [negb andb].
    + specialize (Hc4 eq_refl). lia.
    + intros Ht. specialize (IH2 Ht). lia.
Qed.

(** X4.  [htmlquote] never shortens its input, and it returns the input
    as it is exactly when the input has none of the five characters it
    escapes. *)
Theorem htmlquote_fixed_iff (t : list N) :
  (length t <= length (htmlquote t))%nat
  /\ (htmlquote t = t <-> forallb (fun c => negb (html_sensitive c)) t = true).
Proof.
  split; [apply htmlquote_length|].
  split; [|apply htmlquote_plain].
  intros Heq.
  destruct (forallb (fun c => negb (html_sensitive c)) t) eqn:Hall;
    [reflexivity|].
  pose proof (proj2 (htmlquote_length t) Hall) as Hlt.
  rewrite Heq in Hlt. lia.
Qed.

Lemma htmlquote_fixed_iff_witness :
  forallb (fun c => negb (html_sensitive c)) (txt "plain; text") = true.
Proof.
  apply (htmlquote_fixed_iff (txt "plain; text")). reflexivity.
Defined.

(** ** [websafe] *)

(** X5.  Whatever value [websafe] is given, the text it returns has no
    less-than sign, no greater-than sign, no apostrophe and no double
    quote in it. *)
Theorem websafe_safe (val : value) (t : list N) :
  websafe val = Return t ->
  forallb (fun c => negb (markup_char c)) t = true.
Proof.
  intros Hw. apply forallb_forall. intros c Hc. apply negb_true_iff.
  destruct val as [|b|z|s|b|tr r items]; cbn [websafe] in Hw.
  - injection Hw as <-. destruct Hc.
  - injection Hw as <-. exact (htmlquote_no_markup _ _ Hc).
  - injection Hw as <-. exact (htmlquote_no_markup _ _ Hc).
  - injection Hw as <-. exact (htmlquote_no_markup _ _ Hc).
  - destruct (utf8_decode b) as [s|]; [|discriminate].
    injection Hw as <-. exact (htmlquote_no_markup _ _ Hc).
  - injection Hw as <-. exact (htmlquote_no_markup _ _ Hc).
Qed.

Lemma websafe_safe_witness :
  forallb (fun c => negb (markup_char c))
    (txt "&lt;script&gt;alert(&#39;x&#39;)&lt;/script&gt;") = true.
Proof.
  apply (websafe_safe (VBytes (map (fun c => match Byte.of_N c with
                                             | Some b => b
                                             | None => x00
                                             end)
                                 (txt "<script>alert('x')</script>")))).
  reflexivity.
Defined.

Lemma utf8_decode_ascii (l : list N) :
  forallb (fun b => b <? 128) l = true -> utf8_decode_N l = Some l.
Proof.
  induction l as [|b l IH]; [reflexivity|].
  cbn [forallb utf8_decode_N]. intros [Hb Hl]%andb_true_iff.
  rewrite Hb, (IH Hl). reflexivity.
Qed.

(** X6.  A byte string of ASCII bytes is escaped like the text with the
    same characters: [websafe] gives the same result for both. *)
Theorem websafe_ascii_bytes (b : list byte) :
  forallb (fun x => Byte.to_N x <? 128) b = true ->
  websafe (VBytes b) = websafe (VStr (map Byte.to_N b)).
Proof.
  intros Hb. cbn [websafe]. unfold utf8_decode.
  rewrite utf8_decode_ascii; [reflexivity|].
  rewrite forallb_forall in *. intros x (y & <- & Hy)%in_map_iff.
  apply Hb, Hy.
Qed.

Lemma websafe_ascii_bytes_witness :
  websafe (VBytes ["a"; "<"; "b"]%byte) = websafe (VStr (txt "a<b")).
Proof.
  apply (websafe_ascii_bytes ["a"; "<"; "b"]%byte). reflexivity.
Defined.

(** ** [header] *)

(** The ways a call of [header] can end. *)
Lemma header_cases
    (lower : list N -> list N) (hdr value unique : value)
    (headers : option (list (coerced * coerced))) :
  let r := header lower hdr value unique headers in
  let broken := has_line_break (safestr hdr) || has_line_break (safestr value) in
  (broken = true
   /\ r = (headers, Raise (ValueError "invalid characters in header")))
  \/ (broken = false /\ exists e, r = (headers, Raise e))
  \/ (broken = false /\ unique = VBool true /\ r = (headers, Return tt))
  \/ (broken = false /\ exists hs,
        headers = Some hs
        /\ r = (Some (hs ++ [(safestr hdr, safestr value)]), Return tt)).
Proof.
  cbn zeta.
  assert (Happ : forall h v,
            (exists e, append_header h v headers = (headers, Raise e))
            \/ exists hs, headers = Some hs
                 /\ append_header h v headers = (Some (hs ++ [(h, v)]), Return tt)).
  { intros h v. destruct headers as [hs|]; cbn [append_header]; eauto. }
  destruct (is_True unique) eqn:Hu.
  - destruct unique as [|[]| | | |]; try discriminate.
    rewrite header_unique.
    destruct (has_line_break (safestr hdr) || has_line_break (safestr value));
      [left; split; reflexivity|].
    right. destruct headers as [hs|]; [|left; eauto].
    destruct (scan_headers lower (safestr hdr) hs) as [[]|e].
    + right; left. repeat split.
    + destruct (Happ (safestr hdr) (safestr value)) as [He|Hs];
        [left | right; right]; split; auto.
    + left. eauto.
  - rewrite (header_not_unique lower _ _ _ _ Hu).
    destruct (has_line_break (safestr hdr) || has_line_break (safestr value));
      [left; split; reflexivity|].
    right.
    destruct (Happ (safestr hdr) (safestr value)) as [He|Hs];
      [left | right; right]; split; auto.
Qed.

(** X7.  [header] never removes or reorders an entry of [ctx.headers]:
    when it raises, whatever the exception, the list is what it was; when
    it returns, the list is either what it was or what it was with the
    new pair added at its end. *)
Theorem header_keeps_existing
    (lower : list N -> list N) (hdr value unique : value)
    (headers : option (list (coerced * coerced))) :
  let r := header lower hdr value unique headers in
  (forall e, snd r = Raise e -> fst r = headers)
  /\ (snd r = Return tt ->
      exists hs, headers = Some hs
        /\ (fst r = Some hs
            \/ fst r = Some (hs ++ [(safestr hdr, safestr value)]))).
Proof.
  cbn zeta.
  destruct (header_cases lower hdr value unique headers)
    as [(_ & ->)|[(_ & e & ->)|[(_ & _ & Hr)|(_ & hs & -> & ->)]]];
    cbn [fst snd].
  - split; [reflexivity | discriminate].
  - split; [reflexivity | discriminate].
  - rewrite Hr. cbn [fst snd]. split; [reflexivity|]. intros _.
    destruct headers as [hs|]; [eauto|].
    unfold header in Hr.
    destruct (contains [10] (safestr hdr) || contains [13] (safestr hdr)
              || contains [10] (safestr value) || contains [13] (safestr value));
      [discriminate|].
    destruct (is_True unique); discriminate.
  - split; [discriminate | eauto].
Qed.

Lemma header_keeps_existing_witness :
  exists hs,
    Some [(CText (txt "A"), CText (txt "1"))] = Some hs
    /\ (fst (header ascii_lower (VStr (txt "B")) (VInt 2) (VBool false)
               (Some [(CText (txt "A"), CText (txt "1"))])) = Some hs
        \/ fst (header ascii_lower (VStr (txt "B")) (VInt 2) (VBool false)
                  (Some [(CText (txt "A"), CText (txt "1"))]))
           = Some (hs ++ [(safestr (VStr (txt "B")), safestr (VInt 2))])).
Proof.
  apply (header_keeps_existing ascii_lower (VStr (txt "B")) (VInt 2)
           (VBool false) (Some [(CText (txt "A"), CText (txt "1"))])).
  reflexivity.
Defined.

(** X8.  On a context whose [headers] attribute has not been set,
    [header] raises and stores nothing; the line-break check comes first,
    so a name or value with a line break gives the [ValueError] and any
    other gives [AttributeError], whatever [unique] is. *)
Theorem header_without_headers
    (lower : list N -> list N) (hdr value unique : value) :
  header lower hdr value unique None =
    (None,
     if has_line_break (safestr hdr) || has_line_break (safestr value)
     then Raise (ValueError "invalid characters in header")
     else Raise (AttributeError "headers")).
Proof.
  destruct (is_True unique) eqn:Hu.
  - destruct unique as [|[]| | | |]; try discriminate.
    rewrite header_unique.
    destruct (has_line_break (safestr hdr) || has_line_break (safestr value));
      reflexivity.
  - rewrite (header_not_unique lower _ _ _ _ Hu).
    destruct (has_line_break (safestr hdr) || has_line_break (safestr value));
      reflexivity.
Qed.

(** X9.  A name that [safestr] turns into a list (an iterator was passed)
    has no [lower] method: with [unique=True] and a header list that is
    not empty the call raises [AttributeError] and adds nothing, while on
    an empty list, where nothing is compared, the pair with the list as
    its name is appended. *)
Theorem header_unique_list_name
    (lower : list N -> list N) (hdr value : value) (l : list coerced)
    (hs : list (coerced * coerced)) :
  safestr hdr = CList l ->
  has_line_break (safestr hdr) || has_line_break (safestr value) = false ->
  header lower hdr value (VBool true) (Some hs) =
    match hs with
    | [] => (Some [(CList l, safestr value)], Return tt)
    | _ :: _ => (Some hs, Raise (AttributeError "lower"))
    end.
Proof.
  intros Hl Hb. rewrite header_unique, Hb, Hl.
  destruct hs as [|[h v] hs]; [reflexivity|].
  cbn [scan_headers]. destruct h; reflexivity.
Qed.

Lemma header_unique_list_name_witness :
  header ascii_lower (VIter true [] [VStr (txt "X-A")]) (VStr (txt "1"))
    (VBool true) (Some [(CText (txt "Host"), CText (txt "h"))])
  = (Some [(CText (txt "Host"), CText (txt "h"))],
     Raise (AttributeError "lower")).
Proof.
  apply (header_unique_list_name ascii_lower
           (VIter true [] [VStr (txt "X-A")]) (VStr (txt "1"))
           [CText (txt "X-A")] [(CText (txt "Host"), CText (txt "h"))]).
  - reflexivity.
  - reflexivity.
Defined.

Lemma same_name_key (lower : list N -> list N) (name : list N)
    (hs : list (coerced * coerced)) :
  Forall text_named hs ->
  existsb (same_name lower name) hs = false ->
  ~ In (lower name) (map (name_key lower) hs).
Proof.
  induction 1 as [|[h v] hs Hh _ IH]; cbn [existsb map In]; [tauto|].
  intros [Hs Hrest]%orb_false_iff [Heq|Hin]; [|exact (IH Hrest Hin)].
  unfold text_named in Hh. unfold same_name in Hs. unfold name_key in Heq.
  cbn [fst] in *. destruct h as [h|]; [|contradiction].
  apply bool_decide_eq_false in Hs. contradiction.
Qed.

(** X10.  Calls with [unique=True] and a name that is text keep a header
    list free of duplicates: if all names in [ctx.headers] are text and no
    two are equal up to case, the same holds after the call. *)
Theorem header_unique_keeps_distinct
    (lower : list N -> list N) (hdr value : value) (name : list N)
    (hs : list (coerced * coerced)) :
  safestr hdr = CText name ->
  distinct_names lower hs ->
  exists hs',
    fst (header lower hdr value (VBool true) (Some hs)) = Some hs'
    /\ distinct_names lower hs'.
Proof.
  intros Hn [Htext Hnd]. rewrite header_unique, Hn.
  destruct (has_line_break (CText name) || has_line_break (safestr value));
    [exists hs; split; [reflexivity | split; assumption]|].
  rewrite (scan_headers_text _ _ _ Htext).
  destruct (existsb (same_name lower name) hs) eqn:Hex;
    [exists hs; split; [reflexivity | split; assumption]|].
  eexists. split; [reflexivity|]. split.
  - apply Forall_app. split; [exact Htext|].
    constructor; [exact I | constructor].
  - rewrite map_app. cbn [map]. unfold name_key at 2. cbn [fst].
    apply List.NoDup_app; [exact Hnd| |].
    + constructor; [intros [] | constructor].
    + intros x Hx [<-|[]].
      exact (same_name_key lower name hs Htext Hex Hx).
Qed.

Lemma header_unique_keeps_distinct_witness :
  exists hs',
    fst (header ascii_lower (VStr (txt "content-type")) (VStr (txt "x"))
           (VBool true)
           (Some [(CText (txt "Content-Type"), CText (txt "text/html"));
                  (CText (txt "Vary"), CText (txt "*"))])) = Some hs'
    /\ distinct_names ascii_lower hs'.
Proof.
  apply (header_unique_keeps_distinct ascii_lower
           (VStr (txt "content-type")) (VStr (txt "x")) (txt "content-type")).
  - reflexivity.
  - split.
    + repeat constructor.
    + repeat constructor; cbn; intuition discriminate.
Defined.

(** X11.  No call of [header] puts a line break into [ctx.headers]: if no
    entry has a line feed or carriage return in its name or value (looked
    for the way [header] does), none has after the call, whatever the
    arguments are and however the call ends. *)
Theorem header_keeps_clean
    (lower : list N -> list N) (hdr value unique : value)
    (hs : list (coerced * coerced)) :
  forallb clean_entry hs = true ->
  exists hs',
    fst (header lower hdr value unique (Some hs)) = Some hs'
    /\ forallb clean_entry hs' = true.
Proof.
  intros Hclean.
  destruct (header_cases lower hdr value unique (Some hs))
    as [(_ & ->)|[(_ & e & ->)|[(_ & _ & ->)|(Hb & hs0 & [= <-] & ->)]]];
    cbn [fst]; eauto.
  eexists. split; [reflexivity|].
  rewrite forallb_app, Hclean. cbn [forallb andb].
  unfold clean_entry. cbn [fst snd].
  apply orb_false_iff in Hb as [-> ->]. reflexivity.
Qed.

Lemma header_keeps_clean_witness :
  exists hs',
    fst (header ascii_lower (VStr (txt "Location")) (VStr (txt "/next"))
           (VInt 1) (Some [(CText (txt "Vary"), CText (txt "*"))])) = Some hs'
    /\ forallb clean_entry hs' = true.
Proof.
  apply (header_keeps_clean ascii_lower (VStr (txt "Location"))
           (VStr (txt "/next")) (VInt 1)
           [(CText (txt "Vary"), CText (txt "*"))]).
  reflexivity.
Defined.

(** ** Dictionaries, [Storage] and the methods of [ThreadedDict] *)

Section DictInvariant.

Context {V : Type}.
Implicit Types (d : list (string * V)) (k : string) (v : V).

Lemma put_fresh k v d :
  PyDict.find k d = None -> PyDict.put k v d = d ++ [(k, v)].
Proof.
  induction d as [|[k' v'] d IH]; cbn [PyDict.find PyDict.put app];
    [reflexivity|].
  destruct (String.eqb k k'); [discriminate|].
  intros Hf. rewrite (IH Hf). reflexivity.
Qed.

Lemma put_present_keys k v v0 d :
  PyDict.find k d = Some v0 -> map fst (PyDict.put k v d) = map fst d.
Proof.
  induction d as [|[k' v'] d IH]; cbn [PyDict.find PyDict.put];
    [discriminate|].
  destruct (String.eqb k k'); cbn [map fst]; [reflexivity|].
  intros Hf. rewrite (IH Hf). reflexivity.
Qed.

Lemma put_keys_distinct k v d :
  keys_distinct d -> keys_distinct (PyDict.put k v d).
Proof.
  unfold keys_distinct. intros Hd.
  destruct (PyDict.find k d) as [v0|] eqn:Hf.
  - rewrite (put_present_keys _ _ _ _ Hf). exact Hd.
  - rewrite (put_fresh _ _ _ Hf), map_app. cbn [map fst].
    apply List.NoDup_app; [exact Hd | |].
    + constructor; [intros [] | constructor].
    + intros x Hx [<-|[]]. exact (find_none_not_key _ _ Hf Hx).
Qed.

Lemma drop_key_keys k d x :
  In x (map fst (PyDict.drop_key k d)) -> In x (map fst d).
Proof.
  induction d as [|[k' v'] d IH]; cbn [PyDict.drop_key map fst In]; [tauto|].
  destruct (String.eqb k k'); cbn [map fst In]; tauto.
Qed.

Lemma drop_key_keys_distinct k d :
  keys_distinct d -> keys_distinct (PyDict.drop_key k d).
Proof.
  unfold keys_distinct.
  induction d as [|[k' v'] d IH]; cbn [PyDict.drop_key map fst];
    [trivial|].
  intros [Hk Hd]%List.NoDup_cons_iff.
  destruct (String.eqb k k'); [exact Hd|].
  cbn [map fst]. constructor; [|exact (IH Hd)].
  intros Hin. exact (Hk (drop_key_keys _ _ _ Hin)).
Qed.

Lemma update_from_keys_distinct (other : list (string * V)) d :
  keys_distinct d -> keys_distinct (PyDict.update_from other d).
Proof.
  unfold PyDict.update_from. revert d.
  induction other as [|[k v] other IH]; intros d Hd; [exact Hd|].
  cbn [fold_left]. apply IH, put_keys_distinct, Hd.
Qed.



(** Every method keeps the keys of the dictionary pairwise different. *)
Lemma body_keys_distinct (none : V) (m : ThreadedDict.method) d :
  keys_distinct d -> keys_distinct (fst (ThreadedDict.body none m d)).
Proof.
  intros Hd. destruct m; cbn [ThreadedDict.body]; try exact Hd.
  - unfold PyDict.getitem. destruct (PyDict.find key d); exact Hd.
  - apply put_keys_distinct, Hd.
  - unfold PyDict.delitem. destruct (PyDict.find key d); cbn [fst];
      [apply drop_key_keys_distinct|]; exact Hd.
  - constructor.
  - destruct (PyDict.find key d); exact Hd.
  - destruct (PyDict.find key d), args; cbn [fst];
      try apply drop_key_keys_distinct; exact Hd.
  - destruct (rev d) as [|[k v] r] eqn:Hr; cbn [fst]; [exact Hd|].
    unfold keys_distinct in *.
    assert (Hd' : d = rev r ++ [(k, v)]).
    { rewrite <- (rev_involutive d), Hr. reflexivity. }
    rewrite Hd', map_app in Hd. exact (List.NoDup_app_remove_r _ _ Hd).
  - destruct (PyDict.find key d); cbn [fst];
      [|apply put_keys_distinct]; exact Hd.
  - apply update_from_keys_distinct, update_from_keys_distinct, Hd.
Qed.

Lemma call_keys_distinct (none : V) (m : ThreadedDict.method) d :
  keys_distinct d -> keys_distinct (fst (ThreadedDict.call none m d)).
Proof.
  intros Hd. unfold ThreadedDict.call.
  destruct (ThreadedDict.method_name m) as [name|];
    [destruct (PyDict.find name d); [exact Hd|]|];
    apply body_keys_distinct, Hd.
Qed.

(** The call of a method whose name is not hidden by an entry runs the
    body of the method; with such an entry it raises and changes
    nothing. *)
Lemma call_visible (none : V) (m : ThreadedDict.method) (name : string) d :
  ThreadedDict.method_name m = Some name ->
  ThreadedDict.call none m d =
    match PyDict.find name d with
    | Some _ => (d, Raise (TypeError "object is not callable"))
    | None => ThreadedDict.body none m d
    end.
Proof. unfold ThreadedDict.call. intros ->. reflexivity. Qed.

End DictInvariant.

(** X12.  Deleting a member that is present succeeds and removes it: the
    member is then read as missing ([AttributeError] with its name) unless
    its name is that of an attribute of the class, which is read as that
    attribute before and after; every other member reads as before, and
    the keys stay pairwise different. *)
Theorem storage_delete_then_read {V : Type}
    (class_attrs : list string) (key : string) (v : V)
    (self : list (string * V)) :
  keys_distinct self ->
  PyDict.find key self = Some v ->
  let r := Storage.__delattr__ key self in
  snd r = Return tt
  /\ Storage.member_read class_attrs key (fst r) =
       (if existsb (String.eqb key) class_attrs
        then Return (Storage.FromClass key)
        else Raise (AttributeError key))
  /\ PyDict.getitem key (fst r) = Raise (KeyError key)
  /\ (forall k, k <> key ->
        Storage.member_read class_attrs k (fst r)
        = Storage.member_read class_attrs k self)
  /\ keys_distinct (fst r).
Proof.
  intros Hd Hf. cbn zeta.
  unfold Storage.__delattr__, PyDict.delitem. rewrite Hf. cbn [fst snd].
  split; [reflexivity|]. split; [|split; [|split]].
  - unfold Storage.member_read, Storage.__getattr__, PyDict.getitem.
    rewrite (find_drop_key_same _ _ Hd). reflexivity.
  - unfold PyDict.getitem. rewrite (find_drop_key_same _ _ Hd). reflexivity.
  - intros k Hk.
    unfold Storage.member_read, Storage.__getattr__, PyDict.getitem.
    rewrite find_drop_key_other by congruence. reflexivity.
  - apply drop_key_keys_distinct, Hd.
Qed.

Lemma storage_delete_then_read_witness :
  Storage.member_read Storage.dict_methods "a"
    (fst (Storage.__delattr__ "a" [("a"%string, 1%Z); ("b"%string, 2%Z)]))
  = Raise (AttributeError "a").
Proof.
  apply (storage_delete_then_read Storage.dict_methods "a" 1%Z
           [("a"%string, 1%Z); ("b"%string, 2%Z)]).
  - repeat constructor; cbn; intuition discriminate.
  - reflexivity.
Defined.

(** X13.  Writing a member changes that member only: every other member
    reads as before (present or missing alike), and the key written gets
    no second entry. *)
Theorem storage_write_frame {V : Type}
    (key : string) (value : V) (self : list (string * V)) :
  (forall k, k <> key ->
     Storage.__getattr__ k (Storage.__setattr__ key value self)
     = Storage.__getattr__ k self)
  /\ (keys_distinct self ->
      keys_distinct (Storage.__setattr__ key value self))
  /\ length (Storage.__setattr__ key value self)
     = match PyDict.find key self with
       | Some _ => length self
       | None => S (length self)
       end.
Proof.
  unfold Storage.__setattr__, PyDict.setitem. split; [|split].
  - intros k Hk. unfold Storage.__getattr__, PyDict.getitem.
    rewrite find_put_other by congruence. reflexivity.
  - apply put_keys_distinct.
  - destruct (PyDict.find key self) as [v0|] eqn:Hf.
    + rewrite <- (length_map fst), (put_present_keys _ _ _ _ Hf), length_map.
      reflexivity.
    + rewrite (put_fresh _ _ _ Hf), length_app. cbn. lia.
Qed.

Lemma storage_write_frame_witness :
  keys_distinct
    (Storage.__setattr__ "debug" true [("debug"%string, false)]).
Proof.
  apply (storage_write_frame "debug" true [("debug"%string, false)]).
  repeat constructor. cbn. tauto.
Defined.

Section MethodFacts.

Context {V : Type}.
Variable none : V.
Implicit Types (d : list (string * V)) (k key : string) (v : V).





End MethodFacts.



Section ClearAllFacts.

Context {V : Type}.
Variable none : V.
Implicit Types (st : ThreadedDict.state (V := V)) (tid self h : nat).







End ClearAllFacts.


(** ** [Memoize] with an expiry *)

Section MemoizeExpiry.

Context {Key : Type} `{Countable Key}.
Context {World Value Error : Type}.
Variable func : Key -> World -> World * (Value + Error).
Variable time : World -> Z.

Abbreviation memo' := (Memoize.memo (Key := Key) (Value := Value)).
Abbreviation call' := (Memoize.__call__ func time).
Implicit Types (self : memo') (key k : Key) (w : World).

(** A call on a key that is in the cache. *)
Lemma call_hit key self w v0 t0 :
  Memoize.cache self !! key = Some (v0, t0) ->
  call' key self w =
    let self1 := Memoize.ensure_lock key self in
    if Memoize.stale time key self w then
      if Memoize.background self then
        (Memoize.set_spawned (Memoize.spawned self ++ [key]) self1, w,
         Memoize.ReadsCache)
      else Memoize.after_update key (Memoize.update func time false key self1 w)
    else (self1, w, Memoize.Returned v0).
Proof.
  intros Hc. unfold Memoize.__call__. cbn zeta.
  destruct (ensure_lock_cache key self) as (Hc1 & He1 & Hb1 & Hs1).
  rewrite Hc1, Hc. rewrite bool_decide_eq_true_2 by eauto. cbn [negb].
  unfold Memoize.stale, Memoize.cached. rewrite He1, Hc1, Hb1, Hs1, Hc.
  reflexivity.
Qed.

Lemma after_update_state key
    (r : memo' * World * Memoize.updated (Value := Value) (Error := Error)) :
  fst (Memoize.after_update key r) = fst r.
Proof. destruct r as [[self w] [| |o]]; reflexivity. Qed.

(** [update] writes the entry of its key and nothing else. *)
Lemma update_effect (block : bool) k self w :
  let self' := fst (fst (Memoize.update func time block k self w)) in
  (forall key, key <> k ->
     Memoize.cache self' !! key = Memoize.cache self !! key)
  /\ (is_Some (Memoize.cache self !! k) -> is_Some (Memoize.cache self' !! k))
  /\ Memoize.running self' = Memoize.running self
  /\ Memoize.spawned self' = Memoize.spawned self.
Proof.
  cbn zeta. unfold Memoize.update.
  destruct (Memoize.running self !! k) as [[]|].
  - destruct block; cbn [fst]; repeat split; auto.
  - destruct (func k w) as [w' [v|e]]; cbn [fst]; [|repeat split; auto].
    cbn [Memoize.set_cache Memoize.cache Memoize.running Memoize.spawned].
    split; [|split; [|split; reflexivity]].
    + intros key Hk. apply lookup_insert_ne. congruence.
    + intros _. rewrite lookup_insert_eq. eauto.
  - cbn [fst]. repeat split; auto.
Qed.

Lemma call_effect k self w :
  let self' := fst (fst (call' k self w)) in
  (forall key, key <> k ->
     Memoize.cache self' !! key = Memoize.cache self !! key)
  /\ (is_Some (Memoize.cache self !! k) -> is_Some (Memoize.cache self' !! k)).
Proof.
  cbn zeta. unfold Memoize.__call__. cbn zeta.
  destruct (ensure_lock_cache k self) as (Hc1 & _).
  pose proof (update_effect true k (Memoize.ensure_lock k self) w) as Ht.
  pose proof (update_effect false k (Memoize.ensure_lock k self) w) as Hf.
  cbn zeta in Ht, Hf. rewrite Hc1 in Ht, Hf.
  destruct Ht as (Ht1 & Ht2 & _). destruct Hf as (Hf1 & Hf2 & _).
  destruct (negb _).
  { rewrite after_update_state. split; assumption. }
  destruct (Memoize.stale time k _ w).
  - destruct (Memoize.background _).
    + cbn [fst Memoize.set_spawned Memoize.cache]. rewrite Hc1.
      split; auto.
    + rewrite after_update_state. split; assumption.
  - cbn [fst]. rewrite Hc1. split; auto.
Qed.

Lemma occur_effect (ev : Memoize.event) key self w :
  is_Some (Memoize.cache self !! key) ->
  is_Some (Memoize.cache (fst (Memoize.occur func time ev self w)) !! key).
Proof.
  intros Hk. destruct ev as [k|k|f]; cbn [Memoize.occur].
  - destruct (call_effect k self w) as [Hother Hsame]. cbn zeta in *.
    destruct (decide (key = k)) as [->|Hne]; [auto|].
    rewrite Hother by exact Hne. exact Hk.
  - case_bool_decide; [|exact Hk].
    match goal with
    | |- context [Memoize.update _ _ _ _ ?s _] =>
        destruct (update_effect false k s w) as (Hother & Hsame & _)
    end.
    cbn zeta in *.
    destruct (decide (key = k)) as [->|Hne]; [auto|].
    rewrite Hother by exact Hne. exact Hk.
  - exact Hk.
Qed.

End MemoizeExpiry.

(** X19.  A call on a cached key whose entry is not out of date (no
    expiry is set, the expiry is 0, or no more time than the expiry has
    passed since the entry was stored) returns the cached value; the
    wrapped function is not run, the world and the cache stay as they
    are. *)
Theorem memoize_fresh_hit
    {Key : Type} `{Countable Key} {World Value Error : Type}
    (func : Key -> World -> World * (Value + Error)) (time : World -> Z)
    (key : Key) (self : Memoize.memo (Key := Key) (Value := Value))
    (w : World) (v0 : Value) (t0 : Z) :
  Memoize.cache self !! key = Some (v0, t0) ->
  match Memoize.expires self with
  | None => True
  | Some e => e = 0%Z \/ (time w - t0 <= e)%Z
  end ->
  Memoize.__call__ func time key self w
  = (Memoize.ensure_lock key self, w, Memoize.Returned v0)
  /\ Memoize.cache (Memoize.ensure_lock key self) = Memoize.cache self.
Proof.
  intros Hc He. split; [|apply ensure_lock_cache].
  rewrite (call_hit func time _ _ _ _ _ Hc). cbn zeta.
  unfold Memoize.stale. rewrite Hc.
  destruct (Memoize.expires self) as [e|]; [|reflexivity].
  destruct He as [->|Hle]; [reflexivity|].
  replace (e <? time w - t0)%Z with false by (symmetry; apply Z.ltb_ge, Hle).
  rewrite andb_false_r. reflexivity.
Qed.

Lemma memoize_fresh_hit_witness :
  Memoize.__call__ ticking Z.of_nat tt (ticking_memo (Some 5%Z) false false)
    6%nat
  = (Memoize.ensure_lock tt (ticking_memo (Some 5%Z) false false), 6%nat,
     Memoize.Returned 0%nat)
  /\ Memoize.cache
       (Memoize.ensure_lock tt (ticking_memo (Some 5%Z) false false))
     = Memoize.cache (ticking_memo (Some 5%Z) false false).
Proof.
  apply (memoize_fresh_hit ticking Z.of_nat tt
           (ticking_memo (Some 5%Z) false false) 6%nat 0%nat 1%Z).
  - reflexivity.
  - cbn. lia.
Defined.

(** X20.  With an expiry set and [background] false, a call on a key
    whose entry is out of date, made while the lock of the key is free,
    runs the wrapped function at once: if the function returns, its
    value is stored with the new time and returned; if it raises, the
    exception comes out of the call and the old entry stays in the
    cache. *)
Theorem memoize_refresh_sync
    {Key : Type} `{Countable Key} {World Value Error : Type}
    (func : Key -> World -> World * (Value + Error)) (time : World -> Z)
    (key : Key) (self : Memoize.memo (Key := Key) (Value := Value))
    (w : World) (v0 : Value) (t0 e : Z) :
  Memoize.cache self !! key = Some (v0, t0) ->
  Memoize.expires self = Some e ->
  e <> 0%Z ->
  (e < time w - t0)%Z ->
  Memoize.background self = false ->
  Memoize.running self !! key <> Some true ->
  Memoize.__call__ func time key self w =
    let self1 := Memoize.ensure_lock key self in
    match func key w with
    | (w', inl v) =>
        (Memoize.set_cache (<[key := (v, time w')]> (Memoize.cache self))
           self1, w', Memoize.Returned v)
    | (w', inr err) => (self1, w', Memoize.Raised err)
    end.
Proof.
  intros Hc He Hnz Hlt Hbg Hlock.
  rewrite (call_hit func time _ _ _ _ _ Hc). cbn zeta.
  unfold Memoize.stale. rewrite Hc, He, Hbg.
  replace (e =? 0)%Z with false by (symmetry; apply Z.eqb_neq, Hnz).
  replace (e <? time w - t0)%Z with true by (symmetry; apply Z.ltb_lt, Hlt).
  cbn [negb andb]. unfold Memoize.update.
  rewrite ensure_lock_running.
  replace (default false (Memoize.running self !! key)) with false
    by (destruct (Memoize.running self !! key) as [[]|]; cbn; congruence).
  rewrite (proj1 (ensure_lock_cache key self)).
  destruct (func key w) as [w' [v|err]]; cbn [Memoize.after_update];
    [|reflexivity].
  unfold Memoize.cached. cbn [Memoize.set_cache Memoize.cache].
  rewrite lookup_insert_eq. reflexivity.
Qed.

Lemma memoize_refresh_sync_witness :
  Memoize.__call__ ticking Z.of_nat tt (ticking_memo (Some 5%Z) false false)
    7%nat
  = (Memoize.set_cache
       (<[tt := (7%nat, 8%Z)]>
          (Memoize.cache (ticking_memo (Some 5%Z) false false)))
       (Memoize.ensure_lock tt (ticking_memo (Some 5%Z) false false)),
     8%nat, Memoize.Returned 7%nat).
Proof.
  apply (memoize_refresh_sync ticking Z.of_nat tt
           (ticking_memo (Some 5%Z) false false) 7%nat 0%nat 1%Z 5%Z).
  - reflexivity.
  - reflexivity.
  - discriminate.
  - cbn. lia.
  - reflexivity.
  - cbn. rewrite lookup_singleton_eq. discriminate.
Defined.



(** X22.  With an expiry set and [background] true, a call on a key whose
    entry is out of date does not run the wrapped function itself: it
    starts a thread for the key and goes on to return what the cache
    holds.  If the caller reads the cache before the thread has run, that
    is the old value.  When the thread runs with the lock free, the
    function is run: a value it returns replaces the entry, with the new
    time, and if it raises the entry stays as it was; a caller that reads
    the cache after the thread gets the new value in the first case and
    the old one in the second. *)
Theorem memoize_refresh_background
    {Key : Type} `{Countable Key} {World Value Error : Type}
    (func : Key -> World -> World * (Value + Error)) (time : World -> Z)
    (key : Key) (self : Memoize.memo (Key := Key) (Value := Value))
    (w : World) (v0 : Value) (t0 e : Z) :
  Memoize.cache self !! key = Some (v0, t0) ->
  Memoize.expires self = Some e ->
  e <> 0%Z ->
  (e < time w - t0)%Z ->
  Memoize.background self = true ->
  Memoize.running self !! key <> Some true ->
  let self1 :=
    Memoize.set_spawned (Memoize.spawned self ++ [key])
      (Memoize.ensure_lock key self) in
  Memoize.__call__ func time key self w = (self1, w, Memoize.ReadsCache)
  /\ Memoize.cached (Error := Error) key self1 = Memoize.Returned v0
  /\ forall w1,
       let r := Memoize.occur func time (Memoize.Background key) self1 w1 in
       snd r = fst (func key w1)
       /\ Memoize.cache (fst r) !! key =
            match snd (func key w1) with
            | inl v => Some (v, time (fst (func key w1)))
            | inr _ => Some (v0, t0)
            end
       /\ Memoize.cached (Error := Error) key (fst r) =
            match snd (func key w1) with
            | inl v => Memoize.Returned v
            | inr _ => Memoize.Returned v0
            end.
Proof.
  intros Hc He Hnz Hlt Hbg Hlock self1. split; [|split].
  - rewrite (call_hit func time _ _ _ _ _ Hc). cbn zeta.
    unfold Memoize.stale. rewrite Hc, He, Hbg.
    replace (e =? 0)%Z with false by (symmetry; apply Z.eqb_neq, Hnz).
    replace (e <? time w - t0)%Z with true by (symmetry; apply Z.ltb_lt, Hlt).
    reflexivity.
  - subst self1. unfold Memoize.cached.
    cbn [Memoize.set_spawned Memoize.cache].
    rewrite (proj1 (ensure_lock_cache key self)), Hc. reflexivity.
  - intros w1. subst self1. cbn zeta. cbn [Memoize.occur].
    match goal with
    | |- context [bool_decide (key ∈ ?l)] => assert (Hin : key ∈ l)
    end.
    { cbn [Memoize.set_spawned Memoize.spawned].
      apply elem_of_app. right. apply list_elem_of_In. left. reflexivity. }
    rewrite (bool_decide_eq_true_2 _ Hin).
    unfold Memoize.update, Memoize.cached.
    cbn [Memoize.set_spawned Memoize.running Memoize.cache].
    rewrite ensure_lock_running.
    replace (default false (Memoize.running self !! key)) with false
      by (destruct (Memoize.running self !! key) as [[]|]; cbn; congruence).
    rewrite (proj1 (ensure_lock_cache key self)).
    destruct (func key w1) as [w2 [v|err]]; cbn [fst snd].
    + cbn [Memoize.set_cache Memoize.cache]. rewrite lookup_insert_eq.
      repeat split.
    + cbn [Memoize.set_spawned Memoize.cache].
      rewrite (proj1 (ensure_lock_cache key self)), Hc. repeat split.
Qed.

Lemma memoize_refresh_background_witness :
  Memoize.__call__ ticking Z.of_nat tt (ticking_memo (Some 5%Z) true false)
    7%nat
  = (Memoize.set_spawned [tt]
       (Memoize.ensure_lock tt (ticking_memo (Some 5%Z) true false)),
     7%nat, Memoize.ReadsCache).
Proof.
  apply (memoize_refresh_background ticking Z.of_nat tt
           (ticking_memo (Some 5%Z) true false) 7%nat 0%nat 1%Z 5%Z).
  - reflexivity.
  - reflexivity.
  - discriminate.
  - cbn. lia.
  - reflexivity.
  - cbn. rewrite lookup_singleton_eq. discriminate.
Defined.

(** X23.  Nothing is ever taken out of the cache: a key that has an entry
    still has one after any sequence of calls, background refreshes and
    outside changes, whatever the expiry is. *)
Theorem memoize_never_evicts
    {Key : Type} `{Countable Key} {World Value Error : Type}
    (func : Key -> World -> World * (Value + Error)) (time : World -> Z)
    (key : Key) (evs : list Memoize.event)
    (self : Memoize.memo (Key := Key) (Value := Value)) (w : World) :
  is_Some (Memoize.cache self !! key) ->
  is_Some
    (Memoize.cache (fst (Memoize.occur_all func time evs self w)) !! key).
Proof.
  revert self w. induction evs as [|ev evs IH]; intros self w Hk; [exact Hk|].
  cbn [Memoize.occur_all].
  pose proof (occur_effect func time ev key self w Hk) as Hk'.
  destruct (Memoize.occur func time ev self w) as [self' w'].
  apply IH, Hk'.
Qed.

Lemma memoize_never_evicts_witness :
  is_Some
    (Memoize.cache
       (fst (Memoize.occur_all ticking Z.of_nat
               [Memoize.Outside (fun now => (now + 10)%nat); Memoize.Call tt]
               (ticking_memo (Some 5%Z) false false) 2%nat)) !! tt).
Proof.
  apply (memoize_never_evicts ticking Z.of_nat tt).
  cbn. rewrite lookup_singleton_eq. eauto.
Defined.



(** ** More on escaping, coercion and the dictionaries *)

Lemma escape_char_sensitive (c : N) :
  html_sensitive c = true -> In 38 (escape_char c).
Proof.
  destruct (escape_char_cases c) as [[Hs _]|Hc]; [congruence|].
  intros _. decompose [or and] Hc; subst;
    match goal with H : escape_char _ = _ |- _ => rewrite H end;
    left; reflexivity.
Qed.

Lemma forallb_plain_false (t : list N) :
  forallb (fun c => negb (html_sensitive c)) t = false <->
  exists c, In c t /\ html_sensitive c = true.
Proof.
  induction t as [|x t IH]; cbn [forallb In].
  - split; [discriminate | intros (c & [] & _)].
  - rewrite andb_false_iff, IH, negb_false_iff. split.
    + intros [Hx|(c & Hc & Hs)]; eauto.
    + intros (c & [->|Hc] & Hs); eauto.
Qed.

(** X25.  Escaping twice is not escaping once: [htmlquote] applied to its
    own result gives that result back exactly when the original text has
    none of the five characters; otherwise the ampersands written by the
    first pass are escaped again. *)
Theorem htmlquote_twice (t : list N) :
  htmlquote (htmlquote t) = htmlquote t
  <-> forallb (fun c => negb (html_sensitive c)) t = true.
Proof.
  split.
  - intros Heq.
    destruct (forallb (fun c => negb (html_sensitive c)) t) eqn:Hall;
      [reflexivity|].
    apply forallb_plain_false in Hall as (c & Hc & Hs).
    assert (Hamp : In 38 (htmlquote t)).
    { rewrite htmlquote_chars, in_flat_map.
      exists c. split; [exact Hc | apply escape_char_sensitive, Hs]. }
    assert (Hbad : forallb (fun c => negb (html_sensitive c)) (htmlquote t)
                   = false).
    { apply forallb_plain_false. exists 38. split; [exact Hamp | reflexivity]. }
    pose proof (proj2 (htmlquote_length (htmlquote t)) Hbad) as Hlt.
    rewrite Heq in Hlt. lia.
  - intros Hall. rewrite (htmlquote_plain t Hall). apply htmlquote_plain, Hall.
Qed.

Lemma htmlquote_twice_witness :
  htmlquote (htmlquote (txt "1 + 1 = 2")) = htmlquote (txt "1 + 1 = 2").
Proof.
  apply (htmlquote_twice (txt "1 + 1 = 2")). reflexivity.
Defined.

Lemma hex_digit_printable (n : N) : 48 <= hex_digit n.
Proof. unfold hex_digit. destruct (n <? 10); lia. Qed.

Lemma bytes_repr_char_no_break (quote c x : N) :
  (quote = 34 \/ quote = 39) ->
  In x (bytes_repr_char quote c) -> x <> 10 /\ x <> 13.
Proof.
  intros Hq. unfold bytes_repr_char.
  destruct ((c =? quote) || (c =? 92)) eqn:E1.
  { apply orb_true_iff in E1 as [->%N.eqb_eq| ->%N.eqb_eq];
      intros [<-|[<-|[]]]; lia. }
  destruct (N.eqb_spec c 9); [intros [<-|[<-|[]]]; split; discriminate|].
  destruct (N.eqb_spec c 10); [intros [<-|[<-|[]]]; split; discriminate|].
  destruct (N.eqb_spec c 13); [intros [<-|[<-|[]]]; split; discriminate|].
  destruct ((c <? 32) || (127 <=? c)).
  - pose proof (hex_digit_printable (c / 16)).
    pose proof (hex_digit_printable (c mod 16)).
    intros [<-|[<-|[<-|[<-|[]]]]]; lia.
  - intros [<-|[]]. lia.
Qed.

(** X26.  [safestr] of a byte string never has a line feed or a carriage
    return in it, because the rendering of a byte string writes them as
    backslash escapes; so [header] does not reject a byte string on their
    account, whatever bytes it holds. *)
Theorem safestr_bytes_no_line_break (b : list byte) :
  has_line_break (safestr (VBytes b)) = false.
Proof.
  rewrite safestr_no_next by reflexivity. cbn [py_str].
  unfold has_line_break. cbn [contains].
  assert (Hno : forall x, In x (bytes_repr b) -> x <> 10 /\ x <> 13).
  { unfold bytes_repr. intros x.
    set (q := bytes_quote (map Byte.to_N b)).
    assert (Hq : q = 34 \/ q = 39).
    { unfold q, bytes_quote. destruct (_ && _); auto. }
    cbn [app]. intros [<-|[<-|Hx]]; [lia | lia |].
    apply in_app_or in Hx as [Hx|[<-|[]]]; [|lia].
    apply in_flat_map in Hx as (c & _ & Hx).
    exact (bytes_repr_char_no_break q c x Hq Hx). }
  apply orb_false_iff. split; apply not_true_is_false;
    intros Hc%str_contains_char; apply Hno in Hc; lia.
Qed.

(** X27.  A thread that has done nothing on an instance finds it empty,
    whatever the other threads have stored in it since the start: a read
    of any key raises [KeyError] and [in] says no. *)
Theorem threaded_dict_fresh_thread {V : Type} (none : V)
    (self tid : nat) (key : string)
    (sched : list (nat * ThreadedDict.action (V := V))) :
  Forall (fun p => fst p <> tid) sched ->
  let st := ThreadedDict.run none sched ThreadedDict.initial in
  snd (ThreadedDict.invoke none self tid (ThreadedDict.Getitem key) st)
  = Raise (KeyError key)
  /\ snd (ThreadedDict.invoke none self tid (ThreadedDict.Contains key) st)
     = Return (ThreadedDict.RBool false).
Proof.
  intros Hs st.
  assert (Hd : ThreadedDict.__dict__ self tid st = []).
  { unfold st. rewrite run_frame by exact Hs.
    unfold ThreadedDict.__dict__, ThreadedDict.initial. cbn.
    rewrite lookup_empty. reflexivity. }
  rewrite !(proj2 (invoke_own _ _ _ _ _)), Hd. split; reflexivity.
Qed.

Lemma threaded_dict_fresh_thread_witness :
  snd (ThreadedDict.invoke VNone 0 1 (ThreadedDict.Getitem "x")
         (ThreadedDict.run VNone
            [(0%nat, ThreadedDict.Invoke 0 (ThreadedDict.Setitem "x" (VInt 1)))]
            ThreadedDict.initial))
  = Raise (KeyError "x").
Proof.
  apply (threaded_dict_fresh_thread VNone 0%nat 1%nat "x"%string
           [(0%nat, ThreadedDict.Invoke 0 (ThreadedDict.Setitem "x" (VInt 1)))]).
  repeat constructor. cbn. lia.
Defined.

(** X28.  Setting a member that was missing and deleting it again gives
    the container back as it was, entries and order. *)
Theorem storage_write_then_delete {V : Type}
    (key : string) (value : V) (self : list (string * V)) :
  PyDict.find key self = None ->
  Storage.__delattr__ key (Storage.__setattr__ key value self)
  = (self, Return tt).
Proof.
  intros Hf.
  unfold Storage.__delattr__, Storage.__setattr__, PyDict.delitem,
    PyDict.setitem.
  rewrite find_put_same, (put_fresh _ _ _ Hf).
  f_equal. clear -Hf.
  induction self as [|[k v] self IH]; cbn [app PyDict.drop_key].
  - rewrite String.eqb_refl. reflexivity.
  - cbn [PyDict.find] in Hf. destruct (String.eqb key k); [discriminate|].
    rewrite (IH Hf). reflexivity.
Qed.

Lemma storage_write_then_delete_witness :
  Storage.__delattr__ "b" (Storage.__setattr__ "b" 2%Z [("a"%string, 1%Z)])
  = ([("a"%string, 1%Z)], Return tt).
Proof.
  apply (storage_write_then_delete "b" 2%Z [("a"%string, 1%Z)]).
  reflexivity.
Defined.

